(** * Hackathon ingestion pipeline: deduplication, validation, fetching,
      robots compliance, scheduling and date normalisation.

    Shallow embedding of the TypeScript sources.  Conventions:
    - a JS string is a Rocq [string]; each character is one code unit in the
      range U+0000..U+00FF;
    - a JS number that holds a count or a millisecond timestamp is a [Z] or a
      [nat]; the similarity score and its weights are exact rationals ([Q]),
      so the rounding of IEEE doubles is not part of the model;
    - [undefined] is [None];
    - a [throw] is the [Throw] constructor of [Completion];
    - the clock, the time zone, the network and the [Date] parser enter as
      explicit arguments. *)

From Stdlib Require Import ZArith QArith Qabs Lia Lqa List Ascii String Bool DecimalString.
From Equations Require Import Equations.
From stdpp Require Import base option list strings gmap.
Import ListNotations.

Local Open Scope nat_scope.
Local Open Scope string_scope.
Local Open Scope list_scope.

(* ================================================================== *)
(** ** JavaScript strings *)
(* ================================================================== *)

Module Js.

Definition code (c : ascii) : N := N_of_ascii c.

(** [String.prototype.toLowerCase] on code units below 256: A-Z and the
    Latin-1 capitals U+00C0..U+00DE (U+00D7 is the multiplication sign). *)
Definition lowerChar (c : ascii) : ascii :=
  let n := code c in
  if ((65 <=? n) && (n <=? 90))%N then ascii_of_N (n + 32)
  else if ((192 <=? n) && (n <=? 222) && negb (n =? 215))%N then ascii_of_N (n + 32)
  else c.

Fixpoint toLowerCase (s : string) : string :=
  match s with
  | EmptyString => EmptyString
  | String c s' => String (lowerChar c) (toLowerCase s')
  end.

(** White space and line terminators below 256: TAB, LF, VT, FF, CR, SP, NBSP. *)
Definition isWhiteSpace (c : ascii) : bool :=
  let n := code c in
  (((9 <=? n) && (n <=? 13)) || (n =? 32) || (n =? 160))%N.

Fixpoint trimStart (s : string) : string :=
  match s with
  | EmptyString => EmptyString
  | String c s' => if isWhiteSpace c then trimStart s' else s
  end.

(** [trimEnd s] drops the trailing white space: a character is kept when
    something that is kept follows it or when it is not white space. *)
Fixpoint trimEnd (s : string) : string :=
  match s with
  | EmptyString => EmptyString
  | String c s' =>
      match trimEnd s' with
      | EmptyString => if isWhiteSpace c then EmptyString else String c EmptyString
      | t => String c t
      end
  end.

Definition trim (s : string) : string := trimEnd (trimStart s).

Definition chars (s : string) : list ascii := list_ascii_of_string s.

(** [s.startsWith(p)] *)
Definition startsWith (s p : string) : bool := String.prefix p s.

(** [s.substring(n)] for [0 <= n] *)
Definition substringFrom (n : nat) (s : string) : string :=
  String.substring n (String.length s - n) s.

(** [s.includes(p)] *)
Fixpoint includes (s p : string) : bool :=
  if String.prefix p s then true
  else match s with
       | EmptyString => false
       | String _ s' => includes s' p
       end.

(** [s.split('\n')] *)
Fixpoint splitLines (s : string) : list string :=
  match s with
  | EmptyString => [EmptyString]
  | String c s' =>
      if Ascii.eqb c "010"%char then EmptyString :: splitLines s'
      else match splitLines s' with
           | [] => [String c EmptyString]
           | l :: ls => String c l :: ls
           end
  end.

(** Truthiness of an optional string: [undefined] and [""] are falsy. *)
Definition truthy (o : option string) : bool :=
  match o with
  | Some s => negb (String.eqb s "")
  | None => false
  end.

(** [a || b] on optional strings *)
Definition or_else (a b : option string) : option string :=
  if truthy a then a else b.

(** The length read through optional chaining, [o?.length || 0]. *)
Definition lengthOr0 (o : option string) : nat :=
  match o with
  | Some s => String.length s
  | None => 0
  end.

(** [String(n)] for an integer *)
Definition showNat (n : nat) : string := NilZero.string_of_uint (Nat.to_uint n).

Definition showZ (n : Z) : string :=
  if (n <? 0)%Z then "-" +:+ showNat (Z.to_nat (- n)) else showNat (Z.to_nat n).

(** [n || d] on an optional number: [undefined] and [0] are falsy. *)
Definition numberOr (o : option Z) (d : Z) : Z :=
  match o with
  | Some n => if (n =? 0)%Z then d else n
  | None => d
  end.

End Js.

(** A completed call: a value or a thrown error. *)
Inductive Completion (E A : Type) : Type :=
| Return (a : A)
| Throw (e : E).
Arguments Return {E A} a.
Arguments Throw {E A} e.

(* ================================================================== *)
(** ** The [Date] object of the platform *)
(* ================================================================== *)

(** Time values are milliseconds since the epoch.  [tz] is the offset of the
    host's local time from UTC in minutes (local = UTC + tz), taken constant.
    The parser covers the ISO date-time format and the legacy form
    ["Mon D, YYYY"]; it is only evaluated on strings of these shapes. *)
Module Date.

Definition msPerDay : Z := 86400000.

(** Days from 1970-01-01 to the civil date y-m-d (proleptic Gregorian);
    a day number beyond the month's length runs into the next month. *)
Definition daysFromCivil (y m d : Z) : Z :=
  let y' := if (m <=? 2)%Z then (y - 1)%Z else y in
  let era := (y' / 400)%Z in
  let yoe := (y' - era * 400)%Z in
  let mp := ((m + 9) mod 12)%Z in
  let doy := ((153 * mp + 2) / 5 + d - 1)%Z in
  let doe := (yoe * 365 + yoe / 4 - yoe / 100 + doy)%Z in
  (era * 146097 + doe - 719468)%Z.

Definition civilFromDays (z : Z) : Z * Z * Z :=
  let z := (z + 719468)%Z in
  let era := (z / 146097)%Z in
  let doe := (z - era * 146097)%Z in
  let yoe := ((doe - doe / 1460 + doe / 36524 - doe / 146096) / 365)%Z in
  let doy := (doe - (365 * yoe + yoe / 4 - yoe / 100))%Z in
  let mp := ((5 * doy + 2) / 153)%Z in
  let d := (doy - (153 * mp + 2) / 5 + 1)%Z in
  let m := if (mp <? 10)%Z then (mp + 3)%Z else (mp - 9)%Z in
  let y := (yoe + era * 400)%Z in
  (if (m <=? 2)%Z then (y + 1)%Z else y, m, d).

(** The time value of a UTC date and time; [None] outside the range of
    time values. *)
Definition makeDate (y m d hh mi ss ms : Z) : option Z :=
  let t := (daysFromCivil y m d * msPerDay + hh * 3600000 + mi * 60000 + ss * 1000 + ms)%Z in
  if (Z.abs t <=? 8640000000000000)%Z then Some t else None.

Definition digitVal (c : ascii) : option Z :=
  let n := N_of_ascii c in
  if ((48 <=? n) && (n <=? 57))%N then Some (Z.of_N n - 48)%Z else None.

(** Exactly [n] decimal digits. *)
Fixpoint digits (n : nat) (acc : Z) (s : list ascii) : option (Z * list ascii) :=
  match n with
  | 0 => Some (acc, s)
  | S n' =>
      match s with
      | c :: s' => d ← digitVal c; digits n' (acc * 10 + d)%Z s'
      | [] => None
      end
  end.

Definition expect (c : ascii) (s : list ascii) : option (list ascii) :=
  match s with
  | c' :: s' => if Ascii.eqb c c' then Some s' else None
  | [] => None
  end.

(** The fraction of a second: the first three digits count. *)
Fixpoint fraction (weight : Z) (s : list ascii) : Z * list ascii :=
  match s with
  | c :: s' =>
      match digitVal c with
      | Some d => let '(ms, rest) := fraction (weight / 10) s' in ((d * weight + ms)%Z, rest)
      | None => (0%Z, s)
      end
  | [] => (0%Z, [])
  end.

(** [Z], [+HH:mm] or [-HH:mm]; an absent zone is local time. *)
Definition parseZone (tz : Z) (s : list ascii) : option Z :=
  match s with
  | [] => Some tz
  | ["Z"%char] => Some 0%Z
  | sign :: s' =>
      '(hh, s1) ← digits 2 0 s';
      s2 ← expect ":" s1;
      '(mi, s3) ← digits 2 0 s2;
      match s3 with
      | [] =>
          if Ascii.eqb sign "+" then Some (hh * 60 + mi)%Z
          else if Ascii.eqb sign "-" then Some (- (hh * 60 + mi))%Z
          else None
      | _ :: _ => None
      end
  end.

(** [YYYY-MM-DD] (UTC) or [YYYY-MM-DDTHH:mm[:ss[.sss]]] with a zone. *)
Definition parseIso (tz : Z) (s : list ascii) : option Z :=
  '(y, s) ← digits 4 0 s;
  s ← expect "-" s;
  '(m, s) ← digits 2 0 s;
  s ← expect "-" s;
  '(d, s) ← digits 2 0 s;
  if negb ((1 <=? m) && (m <=? 12) && (1 <=? d) && (d <=? 31))%Z then None
  else
    match s with
    | [] => makeDate y m d 0 0 0 0
    | c :: s =>
        if negb (Ascii.eqb c "T") then None
        else
          '(hh, s) ← digits 2 0 s;
          s ← expect ":" s;
          '(mi, s) ← digits 2 0 s;
          let '(ss, ms, s) :=
            match expect ":" s ≫= digits 2 0 with
            | Some (ss, s') =>
                match expect "." s' with
                | Some s'' => let '(ms, rest) := fraction 100 s'' in (ss, ms, rest)
                | None => (ss, 0%Z, s')
                end
            | None => (0%Z, 0%Z, s)
            end in
          if negb ((hh <=? 24) && (mi <=? 59) && (ss <=? 59))%Z then None
          else
            off ← parseZone tz s;
            t ← makeDate y m d hh mi ss ms;
            Some (t - off * 60000)%Z
    end.

Definition isLetter (c : ascii) : bool :=
  let n := N_of_ascii (Js.lowerChar c) in ((97 <=? n) && (n <=? 122))%N.

Fixpoint spanLetters (s : list ascii) : list ascii * list ascii :=
  match s with
  | c :: s' =>
      if isLetter c then let '(w, rest) := spanLetters s' in (c :: w, rest) else ([], s)
  | [] => ([], [])
  end.

Fixpoint skipSpaces (s : list ascii) : list ascii :=
  match s with
  | c :: s' => if Ascii.eqb c " " then skipSpaces s' else s
  | [] => []
  end.

Definition monthNames : list (string * Z) :=
  [("jan", 1); ("feb", 2); ("mar", 3); ("apr", 4); ("may", 5); ("jun", 6);
   ("jul", 7); ("aug", 8); ("sep", 9); ("oct", 10); ("nov", 11); ("dec", 12)]%Z.

(** A month is named by a word that starts with its three-letter
    abbreviation, in any case. *)
Definition monthOfWord (w : list ascii) : option Z :=
  let key := string_of_list_ascii (Js.lowerChar <$> take 3 w) in
  snd <$> List.find (λ p, String.eqb (fst p) key) monthNames.

(** One or two digits. *)
Definition dayDigits (s : list ascii) : option (Z * list ascii) :=
  match digits 2 0 s with
  | Some r => Some r
  | None => digits 1 0 s
  end.

(** ["Mon D, YYYY"]: midnight of that day in local time. *)
Definition parseLegacy (tz : Z) (s : list ascii) : option Z :=
  let '(w, s) := spanLetters s in
  m ← monthOfWord w;
  match s with
  | c :: _ =>
      if negb (Ascii.eqb c " ") then None
      else
        '(d, s) ← dayDigits (skipSpaces s);
        let s := match expect "," s with Some s' => s' | None => s end in
        '(y, s) ← digits 4 0 (skipSpaces s);
        match s with
        | [] =>
            if negb ((1 <=? d) && (d <=? 31))%Z then None
            else t ← makeDate y m d 0 0 0 0; Some (t - tz * 60000)%Z
        | _ :: _ => None
        end
  | [] => None
  end.

(** [new Date(s).getTime()]; [None] is the invalid date. *)
Definition parse (tz : Z) (s : string) : option Z :=
  match parseIso tz (Js.chars s) with
  | Some t => Some t
  | None => parseLegacy tz (Js.chars s)
  end.

(** [String(n).padStart(width, "0")] for [0 <= n] *)
Definition pad (width : nat) (n : Z) : string :=
  let s := Js.showNat (Z.to_nat n) in
  string_of_list_ascii (replicate (width - String.length s) "0"%char) +:+ s.

(** The calendar date of a time value in the zone at offset [tz]. *)
Definition civil (tz : Z) (t : Z) : Z * Z * Z :=
  civilFromDays ((t + tz * 60000) / msPerDay).

(** [date.getFullYear()] *)
Definition getFullYear (tz : Z) (t : Z) : Z := (civil tz t).1.1.

(** [toISOString()] of a valid date, for the years 0 to 9999. *)
Definition toISOString (t : Z) : string :=
  let '(y, m, d) := civil 0 t in
  let r := (t mod msPerDay)%Z in
  pad 4 y +:+ "-" +:+ pad 2 m +:+ "-" +:+ pad 2 d +:+ "T"
  +:+ pad 2 (r / 3600000) +:+ ":" +:+ pad 2 (r / 60000 mod 60) +:+ ":"
  +:+ pad 2 (r / 1000 mod 60) +:+ "." +:+ pad 3 (r mod 1000) +:+ "Z".

End Date.

(* ================================================================== *)
(** ** Regular expressions of the platform *)
(* ================================================================== *)

(** The fragment the date patterns use: character classes, greedy counted
    repetition of a class, optional sub-patterns, capturing groups, sequences
    and the word boundary, matched by backtracking as [String.prototype.match]
    does for a pattern without the [g] flag. *)
Module RegExp.

Inductive CharClass : Type :=
| Word                       (** [\w] *)
| Digit                      (** [\d] *)
| Space                      (** [\s] *)
| Lit (c : ascii)            (** a literal character *)
| OneOf (cs : list ascii).   (** [[...]] *)

Inductive Regex : Type :=
| Class (c : CharClass)
| Repeat (c : CharClass) (min : nat) (max : option nat)   (** [c{min,max}] *)
| Optional (r : Regex)                                    (** [r?] *)
| Group (index : nat) (r : Regex)                         (** [(r)] *)
| Seq (r1 r2 : Regex)
| Boundary.                                               (** [\b] *)

Definition isWordChar (c : ascii) : bool :=
  let n := N_of_ascii c in
  (((48 <=? n) && (n <=? 57)) || ((65 <=? n) && (n <=? 90))
   || ((97 <=? n) && (n <=? 122)) || (n =? 95))%N.

Definition isDigit (c : ascii) : bool :=
  let n := N_of_ascii c in ((48 <=? n) && (n <=? 57))%N.

Definition inClass (cl : CharClass) (c : ascii) : bool :=
  match cl with
  | Word => isWordChar c
  | Digit => isDigit c
  | Space => Js.isWhiteSpace c
  | Lit c' => Ascii.eqb c c'
  | OneOf cs => existsb (Ascii.eqb c) cs
  end.

(** The state of a match: the character before the current position, the
    rest of the input, and the groups captured so far. *)
Definition Cont : Type :=
  option ascii -> list ascii -> gmap nat string -> option (list ascii * gmap nat string).

(** Greedy repetition: as many characters as allowed first, then fewer. *)
Fixpoint repeatClass (cl : CharClass) (min : nat) (max : option nat)
    (prev : option ascii) (s : list ascii) (caps : gmap nat string) (k : Cont)
  : option (list ascii * gmap nat string) :=
  let stop := match min with 0 => k prev s caps | S _ => None end in
  match s with
  | c :: s' =>
      if inClass cl c && negb (bool_decide (max = Some 0))
      then match repeatClass cl (pred min) (pred <$> max) (Some c) s' caps k with
           | Some r => Some r
           | None => stop
           end
      else stop
  | [] => stop
  end.

Definition isWordOpt (c : option ascii) : bool :=
  match c with
  | Some c => isWordChar c
  | None => false
  end.

Fixpoint matchAt (r : Regex) (prev : option ascii) (s : list ascii)
    (caps : gmap nat string) (k : Cont) : option (list ascii * gmap nat string) :=
  match r with
  | Class cl =>
      match s with
      | c :: s' => if inClass cl c then k (Some c) s' caps else None
      | [] => None
      end
  | Repeat cl min max => repeatClass cl min max prev s caps k
  | Optional r' =>
      match matchAt r' prev s caps k with
      | Some res => Some res
      | None => k prev s caps
      end
  | Group index r' =>
      matchAt r' prev s caps
        (λ prev' s' caps',
           let text := string_of_list_ascii (take (length s - length s') s) in
           k prev' s' (<[index := text]> caps'))
  | Seq r1 r2 => matchAt r1 prev s caps (λ prev' s' caps', matchAt r2 prev' s' caps' k)
  | Boundary =>
      if xorb (isWordOpt prev) (isWordOpt (head s)) then k prev s caps else None
  end.

(** The leftmost match: the first position at which the pattern matches. *)
Fixpoint search (r : Regex) (prev : option ascii) (s : list ascii)
  : option (gmap nat string) :=
  match matchAt r prev s ∅ (λ _ rest caps, Some (rest, caps)) with
  | Some (rest, caps) =>
      Some (<[0 := string_of_list_ascii (take (length s - length rest) s)]> caps)
  | None =>
      match s with
      | c :: s' => search r (Some c) s'
      | [] => None
      end
  end.

(** [text.match(pattern)]: the groups of the first match, group 0 being the
    matched text; an unmatched group is absent. *)
Definition exec (r : Regex) (text : string) : option (gmap nat string) :=
  search r None (Js.chars text).

Fixpoint seqs (rs : list Regex) : Regex :=
  match rs with
  | [] => Repeat Space 0 (Some 0)
  | [r] => r
  | r :: rs' => Seq r (seqs rs')
  end.

End RegExp.

(* ================================================================== *)
(** ** The [URL] object of the platform *)
(* ================================================================== *)

(** A parsed URL: the URL record of the URL standard, as far as
    [canonicalizeUrl] reads and writes it.  [protocol] is the scheme with its
    colon; [host] is [None] for the null host and [port] is empty for the null
    port; [pathname] is the serialised path, and [opaquePath] tells whether
    the path is opaque, as that of a [mailto:] URL is; [searchParams] is the
    list of pairs that the query stands for; [hash] is the fragment with its
    number sign, empty when there is none.  Parsing and serialising are the
    platform's and enter as arguments.  The setters are those of the URL
    standard, for the values they get here: a host as the getter returns it,
    with or without its leading "www.", and a path as the getter returns it,
    with or without its final slash; host parsing and path parsing leave such
    a value as it is. *)
Module Url.

Record URL : Type := mkURL {
  protocol : string;
  username : string;
  password : string;
  host : option string;
  port : string;
  opaquePath : bool;
  pathname : string;
  searchParams : list (string * string);
  hash : string
}.

(** [url.hostname]: empty for the null host. *)
Definition hostname (u : URL) : string := default "" (host u).

(** The special schemes. *)
Definition specialSchemes : list string :=
  ["ftp:"; "file:"; "http:"; "https:"; "ws:"; "wss:"].

Definition isSpecial (u : URL) : bool := bool_decide (protocol u ∈ specialSchemes).

Definition includesCredentials (u : URL) : bool :=
  negb (String.eqb (username u) "") || negb (String.eqb (password u) "").

(** [url.searchParams.delete(name)]: every pair of that name goes, and the
    query of the URL becomes the remaining list. *)
Definition searchParams_delete (name : string) (u : URL) : URL :=
  {| protocol := protocol u; username := username u; password := password u;
     host := host u; port := port u; opaquePath := opaquePath u;
     pathname := pathname u;
     searchParams := filter (λ p, p.1 ≠ name) (searchParams u);
     hash := hash u |}.

Definition with_host (h : option string) (u : URL) : URL :=
  {| protocol := protocol u; username := username u; password := password u;
     host := h; port := port u; opaquePath := opaquePath u;
     pathname := pathname u; searchParams := searchParams u; hash := hash u |}.

Definition with_pathname (p : string) (u : URL) : URL :=
  {| protocol := protocol u; username := username u; password := password u;
     host := host u; port := port u; opaquePath := opaquePath u;
     pathname := p; searchParams := searchParams u; hash := hash u |}.

(** [url.hostname = value].  A URL with an opaque path is left alone.  For a
    [file:] URL (file host state) the empty value gives the empty host, and
    so does "localhost".  Otherwise (hostname state) the empty value is
    refused when the URL is special or has credentials or a port, and gives
    the empty host when it is not. *)
Definition set_hostname (value : string) (u : URL) : URL :=
  if opaquePath u then u
  else if String.eqb (protocol u) "file:" then
    if String.eqb value "" then with_host (Some "") u
    else if String.eqb value "localhost" then with_host (Some "") u
    else with_host (Some value) u
  else if String.eqb value "" then
    if isSpecial u then u
    else if includesCredentials u || negb (String.eqb (port u) "") then u
    else with_host (Some "") u
  else with_host (Some value) u.

(** [url.pathname = value].  A URL with an opaque path is left alone.
    Otherwise the path is emptied and the value parsed from the path start
    state: for the empty value a special URL gets the path of one empty
    segment, ["/"], and so does a URL whose host is null, while a URL that is
    not special and has a host keeps the empty path. *)
Definition set_pathname (value : string) (u : URL) : URL :=
  if opaquePath u then u
  else if String.eqb value "" then
    if isSpecial u then with_pathname "/" u
    else match host u with
         | None => with_pathname "/" u
         | Some _ => with_pathname "" u
         end
  else with_pathname (if Js.startsWith value "/" then value else "/" +:+ value) u.

(** [s.replace(/^www\./, '')] *)
Definition stripWww (s : string) : string :=
  if Js.startsWith s "www." then Js.substringFrom 4 s else s.

(** [s.replace(/\/$/, '')] *)
Fixpoint stripTrailingSlash (s : string) : string :=
  match s with
  | EmptyString => EmptyString
  | String c EmptyString => if Ascii.eqb c "/" then EmptyString else s
  | String c s' => String c (stripTrailingSlash s')
  end.

(** *** Plain URLs

    A parser for the URLs
    [http(s)://host[:port][/path][?name=value&...][#fragment]] that need no
    normalisation but that of the case of the host and of a default port:
    lower-case scheme, a host of labels of letters, digits and inner single
    hyphens whose last label has letters only, a port of one to four digits
    without a leading zero, a path without dot segments, and only unreserved
    characters in path, query and fragment.  On these the platform's parser
    yields the record below; every other input is outside the fragment and
    gives [None]. *)
Fixpoint splitAt (stop : ascii -> bool) (s : string) : string * string :=
  match s with
  | EmptyString => (EmptyString, EmptyString)
  | String c s' =>
      if stop c then (EmptyString, s)
      else let '(a, b) := splitAt stop s' in (String c a, b)
  end.

Definition isOneOf (cs : list ascii) (c : ascii) : bool := existsb (Ascii.eqb c) cs.

Definition isLetter (c : ascii) : bool :=
  let n := N_of_ascii c in
  (((65 <=? n) && (n <=? 90)) || ((97 <=? n) && (n <=? 122)))%N.

Definition isDigit (c : ascii) : bool :=
  let n := N_of_ascii c in ((48 <=? n) && (n <=? 57))%N.

Fixpoint allChars (P : ascii -> bool) (s : string) : bool :=
  match s with
  | EmptyString => true
  | String c s' => P c && allChars P s'
  end.

(** The pieces of [s] between the occurrences of [sep]. *)
Fixpoint splitOn (sep : ascii) (s : string) : list string :=
  match s with
  | EmptyString => [EmptyString]
  | String c s' =>
      if Ascii.eqb c sep then EmptyString :: splitOn sep s'
      else match splitOn sep s' with
           | [] => [String c EmptyString]
           | l :: ls => String c l :: ls
           end
  end.

Definition plainLabel (l : string) : bool :=
  negb (String.eqb l "")
  && allChars (λ c, isLetter c || isDigit c || Ascii.eqb c "-") l
  && negb (Js.startsWith l "-") && negb (Js.includes l "--")
  && match String.get (String.length l - 1) l with
     | Some c => negb (Ascii.eqb c "-")
     | None => false
     end.

Definition plainHost (h : string) : bool :=
  forallb plainLabel (splitOn "." h)
  && allChars isLetter (List.last (splitOn "." h) "").

Definition plainPort (p : string) : bool :=
  String.eqb p ""
  || (allChars isDigit p && negb (Js.startsWith p "0") && (String.length p <=? 4)%nat).

Definition plainPath (p : string) : bool :=
  allChars (λ c, isLetter c || isDigit c || isOneOf ["-"; "."; "_"; "~"; "/"]%char c) p
  && forallb (λ seg, negb (String.eqb seg ".") && negb (String.eqb seg ".."))
             (splitOn "/" p).

Definition plainQueryText (s : string) : bool :=
  allChars (λ c, isLetter c || isDigit c || isOneOf ["-"; "."; "_"; "*"]%char c) s.

Definition plainFragment (f : string) : bool :=
  String.eqb f ""
  || allChars (λ c, isLetter c || isDigit c || isOneOf ["-"; "."; "_"; "~"; "/"]%char c)
       (Js.substringFrom 1 f).

(** The pairs of a query without its question mark; [fuel] bounds the number
    of pairs by the length of the query. *)
Fixpoint parsePairs (fuel : nat) (q : string) : list (string * string) :=
  match fuel with
  | 0 => []
  | S fuel' =>
      if String.eqb q "" then []
      else
        let '(item, rest) := splitAt (isOneOf ["&"%char]) q in
        let '(name, value) := splitAt (isOneOf ["="%char]) item in
        let value := Js.substringFrom 1 value in
        let rest := Js.substringFrom 1 rest in
        if String.eqb item "" then parsePairs fuel' rest
        else (name, value) :: parsePairs fuel' rest
  end.

Definition defaultPort (scheme : string) : string :=
  if String.eqb scheme "https:" then "443" else "80".

Definition plainParse (url : string) : option URL :=
  let parseRest (scheme rest : string) : option URL :=
    let '(authority, rest) := splitAt (isOneOf ["/"; "?"; "#"]%char) rest in
    let '(host, port) := splitAt (isOneOf [":"%char]) authority in
    let port := Js.substringFrom 1 port in
    let '(path, rest) := splitAt (isOneOf ["?"; "#"]%char) rest in
    let '(query, fragment) := splitAt (isOneOf ["#"%char]) rest in
    let pairs := parsePairs (String.length query) (Js.substringFrom 1 query) in
    if plainHost host && plainPort port && plainPath path && plainFragment fragment
       && forallb (λ p, plainQueryText p.1 && plainQueryText p.2) pairs
    then Some {| protocol := scheme; username := ""; password := "";
                 host := Some (Js.toLowerCase host);
                 port := if String.eqb port (defaultPort scheme) then "" else port;
                 opaquePath := false;
                 pathname := if String.eqb path "" then "/" else path;
                 searchParams := pairs;
                 hash := fragment |}
    else None in
  if Js.startsWith url "https://" then parseRest "https:" (Js.substringFrom 8 url)
  else if Js.startsWith url "http://" then parseRest "http:" (Js.substringFrom 7 url)
  else None.

Fixpoint joinPairs (ps : list (string * string)) : string :=
  match ps with
  | [] => ""
  | [(n, v)] => n +:+ "=" +:+ v
  | (n, v) :: ps' => n +:+ "=" +:+ v +:+ "&" +:+ joinPairs ps'
  end.

(** The URL serialiser, for a URL whose query needs no escapes. *)
Definition plainHref (u : URL) : string :=
  protocol u
  +:+ match host u with
      | Some h =>
          "//"
          +:+ (if includesCredentials u
               then username u
                    +:+ (if String.eqb (password u) "" then "" else ":" +:+ password u)
                    +:+ "@"
               else "")
          +:+ h
          +:+ (if String.eqb (port u) "" then "" else ":" +:+ port u)
      | None =>
          if negb (opaquePath u) && Js.startsWith (pathname u) "//" then "/." else ""
      end
  +:+ pathname u
  +:+ (match searchParams u with [] => "" | _ :: _ => "?" +:+ joinPairs (searchParams u) end)
  +:+ hash u.

End Url.

(* ================================================================== *)
(** ** Data model ([types/ingestion.ts]) *)
(* ================================================================== *)

Inductive Source : Type := devpost | mlh | eventbrite.

#[global] Instance Source_eq_dec : EqDecision Source.
Proof. solve_decision. Defined.

Record NormalizedHackathon : Type := mkHackathon {
  title : string;
  description : option string;
  start_date : string;
  end_date : string;
  registration_deadline : option string;
  location : string;
  is_online : bool;
  website_url : option string;
  registration_url : option string;
  source : Source
}.

(** [ScrapingError(message, source_id, url?, originalError?)]; the original
    error is kept by its message. *)
Record ScrapingError : Type := mkScrapingError {
  se_message : string;
  se_source_id : string;
  se_url : option string;
  se_originalError : option string
}.

(* ================================================================== *)
(** ** Deduplication ([ingestion/utils/deduplication.ts]) *)
(* ================================================================== *)

(** *** The edit-distance matrix of [stringSimilarity] *)

Definition indicator (c1 c2 : ascii) : nat := if Ascii.eqb c1 c2 then 0 else 1.

Definition min3 (a b c : nat) : nat := Nat.min (Nat.min a b) c.

(** The inner loop over [i] for one row [j]: [prevRow] is [matrix[j-1]] from
    column [i-1] on and [left] is [matrix[j][i-1]]. *)
Fixpoint fillRow (c2 : ascii) (s1 : list ascii) (prevRow : list nat) (left : nat)
  : list nat :=
  match s1, prevRow with
  | c1 :: s1', diag :: ((up :: _) as prevRow') =>
      let v := min3 (left + 1) (up + 1) (diag + indicator c1 c2) in
      v :: fillRow c2 s1' prevRow' v
  | _, _ => []
  end.

(** The outer loop over [j]; [matrix[j][0] = j]. *)
Fixpoint fillRows (s1 s2 : list ascii) (j : nat) (prevRow : list nat)
  : list (list nat) :=
  match s2 with
  | [] => []
  | c2 :: s2' =>
      let row := j :: fillRow c2 s1 prevRow j in
      row :: fillRows s1 s2' (S j) row
  end.

(** The whole matrix; [matrix[0][i] = i]. *)
Definition levenshteinMatrix (s1 s2 : list ascii) : list (list nat) :=
  let row0 := seq 0 (S (length s1)) in
  row0 :: fillRows s1 s2 1 row0.

Definition cell (matrix : list (list nat)) (j i : nat) : nat :=
  default 0 (matrix !! j ≫= (.!! i)).

Definition stringSimilarity (str1 str2 : string) : Q :=
  let s1 := Js.trim (Js.toLowerCase str1) in
  let s2 := Js.trim (Js.toLowerCase str2) in
  if String.eqb s1 s2 then 1%Q
  else if (String.length s1 =? 0)%nat || (String.length s2 =? 0)%nat then 0%Q
  else
    let matrix := levenshteinMatrix (Js.chars s1) (Js.chars s2) in
    let maxLength := Nat.max (String.length s1) (String.length s2) in
    (inject_Z (Z.of_nat maxLength - Z.of_nat (cell matrix (String.length s2) (String.length s1)))
     / inject_Z (Z.of_nat maxLength))%Q.

Section Similarity.

(** [new Date(s).getTime()]: milliseconds since the epoch, [None] for an
    invalid date (NaN). *)
Variable getTime : string -> option Z.

Definition msPerDay : Z := 1000 * 60 * 60 * 24.

Definition calculateSimilarity (h1 h2 : NormalizedHackathon) : Q :=
  let score := 0%Q in
  let factors := 0%Q in
  let titleSimilarity := stringSimilarity (title h1) (title h2) in
  let score := (score + titleSimilarity * (4 # 10))%Q in
  let factors := (factors + (4 # 10))%Q in
  let score :=
    if String.eqb (start_date h1) (start_date h2) then (score + (3 # 10))%Q
    else
      match getTime (start_date h1), getTime (start_date h2) with
      | Some t1, Some t2 =>
          let daysDiff := (inject_Z (Z.abs (t1 - t2)) / inject_Z msPerDay)%Q in
          if Qle_bool daysDiff 3 then (score + (15 # 100))%Q else score
      | _, _ => score
      end in
  let factors := (factors + (3 # 10))%Q in
  let locationSimilarity := stringSimilarity (location h1) (location h2) in
  let score := (score + locationSimilarity * (2 # 10))%Q in
  let factors := (factors + (2 # 10))%Q in
  let score :=
    if Bool.eqb (is_online h1) (is_online h2) then (score + (1 # 10))%Q else score in
  let factors := (factors + (1 # 10))%Q in
  (score / factors)%Q.

(** [isDuplicate(h1, h2, threshold = 0.85)] *)
Definition isDuplicate (h1 h2 : NormalizedHackathon) (threshold : option Q) : bool :=
  Qle_bool (default (85 # 100) threshold) (calculateSimilarity h1 h2).

End Similarity.

(** *** [findDuplicates] *)

Record DuplicateGroup : Type := mkGroup {
  original : NormalizedHackathon;
  duplicates : list NormalizedHackathon
}.

(** The array with its indices, [(k, l[0]); (k+1, l[1]); ...]. *)
Fixpoint indexedFrom {A : Type} (k : nat) (l : list A) : list (nat * A) :=
  match l with
  | [] => []
  | x :: l' => (k, x) :: indexedFrom (S k) l'
  end.

Section FindDuplicates.

Variable getTime : string -> option Z.
Variable threshold : Q.

(** [for (let j = i + 1; j < hackathons.length; j++)]: [js] holds the
    elements from index [i + 1] on. *)
Fixpoint innerLoop (hi : NormalizedHackathon) (js : list (nat * NormalizedHackathon))
    (processed : gset nat) (duplicates : list NormalizedHackathon)
  : gset nat * list NormalizedHackathon :=
  match js with
  | [] => (processed, duplicates)
  | (j, hj) :: js' =>
      if decide (j ∈ processed) then innerLoop hi js' processed duplicates
      else if isDuplicate getTime hi hj (Some threshold)
      then innerLoop hi js' ({[j]} ∪ processed) (duplicates ++ [hj])
      else innerLoop hi js' processed duplicates
  end.

(** [for (let i = 0; i < hackathons.length; i++)]: [items] holds the elements
    from index [i] on. *)
Fixpoint outerLoop (items : list (nat * NormalizedHackathon))
    (processed : gset nat) (duplicateGroups : list DuplicateGroup)
  : list DuplicateGroup :=
  match items with
  | [] => duplicateGroups
  | (i, hi) :: rest =>
      if decide (i ∈ processed) then outerLoop rest processed duplicateGroups
      else
        let '(processed, duplicates) := innerLoop hi rest processed [] in
        let duplicateGroups :=
          if (0 <? length duplicates)%nat
          then duplicateGroups ++ [mkGroup hi duplicates]
          else duplicateGroups in
        outerLoop rest ({[i]} ∪ processed) duplicateGroups
  end.

End FindDuplicates.

(** [findDuplicates(hackathons, threshold = 0.85)] *)
Definition findDuplicates (getTime : string -> option Z)
    (hackathons : list NormalizedHackathon) (threshold : option Q)
  : list DuplicateGroup :=
  outerLoop getTime (default (85 # 100) threshold) (indexedFrom 0 hackathons) ∅ [].

(** *** [canonicalizeUrl] *)

Section CanonicalizeUrl.

(** [new URL(url)], [None] when it throws, and [urlObj.toString()]. *)
Variable newURL : string -> option Url.URL.
Variable toString : Url.URL -> string.

Definition trackingParams : list string :=
  ["utm_source"; "utm_medium"; "utm_campaign"; "utm_term"; "utm_content";
   "fbclid"; "gclid"; "ref"; "source"; "campaign"].

(** The [try] block. *)
Definition canonicalizeUrl_try (url : string) : Completion string string :=
  match newURL url with
  | None => Throw "Invalid URL"
  | Some urlObj =>
      let urlObj := foldl (λ u param, Url.searchParams_delete param u) urlObj trackingParams in
      let urlObj := Url.set_hostname (Url.stripWww (Url.hostname urlObj)) urlObj in
      let urlObj := Url.set_pathname (Url.stripTrailingSlash (Url.pathname urlObj)) urlObj in
      Return (toString urlObj)
  end.

Definition canonicalizeUrl (url : string) : string :=
  match canonicalizeUrl_try url with
  | Return canonical => canonical
  | Throw _ => url
  end.

End CanonicalizeUrl.

(** *** [mergeDuplicates] *)

(** [sourcePriority.indexOf(s)], [-1] when absent. *)
Fixpoint indexOf (l : list Source) (s : Source) : Z :=
  match l with
  | [] => -1
  | x :: l' =>
      if decide (x = s) then 0
      else let r := indexOf l' s in if (r =? -1)%Z then -1 else (r + 1)%Z
  end.

(** [Array.prototype.sort()] without a comparator, on strings: ascending by
    code units.  Equal strings are indistinguishable, so the result does not
    depend on the sorting algorithm. *)
Fixpoint insertSorted (x : string) (l : list string) : list string :=
  match l with
  | [] => [x]
  | y :: l' => if String.leb x y then x :: l else y :: insertSorted x l'
  end.

Definition sort (l : list string) : list string := foldr insertSorted [] l.

(** [.filter(Boolean)] on optional strings *)
Fixpoint filterBoolean (l : list (option string)) : list string :=
  match l with
  | [] => []
  | Some s :: l' => if Js.truthy (Some s) then s :: filterBoolean l' else filterBoolean l'
  | None :: l' => filterBoolean l'
  end.

Definition sourcePriority : list Source := [mlh; devpost; eventbrite].

(** One round of the loop that selects the base record. *)
Definition pickBest (best duplicate : NormalizedHackathon) : NormalizedHackathon :=
  let originalPriority := indexOf sourcePriority (source best) in
  let duplicatePriority := indexOf sourcePriority (source duplicate) in
  if (duplicatePriority <? originalPriority)%Z && negb (duplicatePriority =? -1)%Z
  then duplicate else best.

Definition mergeDuplicates (original : NormalizedHackathon)
    (duplicates : list NormalizedHackathon) : NormalizedHackathon :=
  let best := foldl pickBest original duplicates in
  let allEvents := original :: duplicates in
  {| title := title best;
     start_date := start_date best;
     end_date := end_date best;
     location := location best;
     is_online := is_online best;
     source := source best;
     description :=
       Js.or_else
         (List.find (λ e, Js.truthy (description e)
                          && (Js.lengthOr0 (description best)
                              <? Js.lengthOr0 (description e))%nat) allEvents
            ≫= description)
         (description best);
     registration_deadline :=
       Js.or_else
         (head (sort (filterBoolean (registration_deadline <$> allEvents))))
         (registration_deadline best);
     registration_url :=
       Js.or_else
         (List.find (λ e, Js.truthy (registration_url e)) allEvents ≫= registration_url)
         (registration_url best);
     website_url :=
       Js.or_else (website_url best)
         (List.find (λ e, Js.truthy (website_url e)) allEvents ≫= website_url) |}.

(* ================================================================== *)
(** ** The HTTP client ([utils/http-client.ts]) *)
(* ================================================================== *)

Record HttpClientOptions : Type := mkOptions {
  opt_userAgent : option string;
  opt_timeout : option Z;
  opt_maxRetries : option Z;
  opt_retryDelay : option Z;
  opt_rateLimitConfig : option (Z * Z)
}.

Record HttpClient : Type := mkClient {
  userAgent : string;
  timeout : Z;
  maxRetries : Z;
  retryDelay : Z;
  (** [maxConcurrent] and [minTime] of the limiter *)
  limiter : Z * Z
}.

(** The constructor *)
Definition newHttpClient (options : HttpClientOptions) : HttpClient :=
  {| userAgent :=
       default "HackathonSnifferBot/0.1"
         (Js.or_else (opt_userAgent options) (Some "HackathonSnifferBot/0.1"));
     timeout := Js.numberOr (opt_timeout options) 15000;
     maxRetries := Js.numberOr (opt_maxRetries options) 3;
     retryDelay := Js.numberOr (opt_retryDelay options) 1000;
     limiter := default (3, 1000)%Z (opt_rateLimitConfig options) |}.

Definition noOptions : HttpClientOptions :=
  {| opt_userAgent := None; opt_timeout := None; opt_maxRetries := None;
     opt_retryDelay := None; opt_rateLimitConfig := None |}.

(** What one call of [fetch] does: it answers with a status and a body (whose
    reading may fail), or it fails (transport error, or abort on timeout).
    Errors are kept by their messages. *)
Inductive FetchOutcome : Type :=
| Responded (ok : bool) (status : Z) (statusText : string) (text : Completion string string)
| Failed (error : string).

(** What the client does to the outside world. *)
Inductive HttpEvent : Type :=
| EvFetch (url : string) (attempt : Z)
| EvSleep (ms : Z).

#[global] Instance HttpEvent_eq_dec : EqDecision HttpEvent.
Proof. solve_decision. Defined.

(** The number of [fetch] calls made so far and the events so far. *)
Record NetState : Type := mkNet {
  fetchCount : nat;
  events : list HttpEvent
}.

Section HttpClient.

(** The network: the outcome of the [n]-th call of [fetch], for its URL. *)
Variable network : string -> nat -> FetchOutcome.
Variable this : HttpClient.

(** The [try] block of [makeRequest]. *)
Definition tryFetch (url : string) (attempt : Z) (st : NetState)
  : Completion string string * NetState :=
  let st' := {| fetchCount := S (fetchCount st);
                events := events st ++ [EvFetch url attempt] |} in
  match network url (fetchCount st) with
  | Responded ok status statusText text =>
      if negb ok
      then (Throw ("HTTP " +:+ Js.showZ status +:+ ": " +:+ statusText), st')
      else (text, st')
  | Failed error => (Throw error, st')
  end.

Definition sleep (ms : Z) (st : NetState) : NetState :=
  {| fetchCount := fetchCount st; events := events st ++ [EvSleep ms] |}.

Equations? makeRequest (url source_id : string) (attempt : Z) (st : NetState)
  : Completion ScrapingError string * NetState
  by wf (Z.to_nat (maxRetries this - attempt)) lt :=
  makeRequest url source_id attempt st with tryFetch url attempt st => {
    | (Return text, st1) := (Return text, st1);
    | (Throw error, st1) with decide (attempt < maxRetries this)%Z => {
        | left _ :=
            let delay := (retryDelay this * 2 ^ (attempt - 1))%Z in
            makeRequest url source_id (attempt + 1) (sleep delay st1);
        | right _ :=
            (Throw (mkScrapingError
                      ("Failed to fetch " +:+ url +:+ " after "
                       +:+ Js.showZ (maxRetries this) +:+ " attempts")
                      source_id (Some url) (Some error)), st1) } }.
Proof. lia. Qed.

(** [get]: the limiter schedules the request. *)
Definition get (url source_id : string) (st : NetState)
  : Completion ScrapingError string * NetState :=
  makeRequest url source_id 1 st.

End HttpClient.

(** *** robots.txt *)

(** The variables of the parsing loop of [isAllowedByRobotsTxt]. *)
Record RobotsState : Type := mkRobots {
  currentUserAgent : string;
  isRelevantSection : bool;
  disallowed : list string;
  allowed : list string
}.

(** One round of [for (const line of lines)]. *)
Definition robotsLine (userAgent : string) (st : RobotsState) (line : string)
  : RobotsState :=
  if Js.startsWith line "user-agent:" then
    let currentUserAgent := Js.trim (Js.substringFrom (String.length "user-agent:") line) in
    {| currentUserAgent := currentUserAgent;
       isRelevantSection :=
         String.eqb currentUserAgent "*"
         || String.eqb currentUserAgent (Js.toLowerCase userAgent)
         || Js.includes (Js.toLowerCase userAgent) currentUserAgent;
       disallowed := [];
       allowed := [] |}
  else if isRelevantSection st then
    if Js.startsWith line "disallow:" then
      let disallowPath := Js.trim (Js.substringFrom (String.length "disallow:") line) in
      if Js.truthy (Some disallowPath)
      then {| currentUserAgent := currentUserAgent st;
              isRelevantSection := isRelevantSection st;
              disallowed := disallowed st ++ [disallowPath];
              allowed := allowed st |}
      else st
    else if Js.startsWith line "allow:" then
      let allowPath := Js.trim (Js.substringFrom (String.length "allow:") line) in
      if Js.truthy (Some allowPath)
      then {| currentUserAgent := currentUserAgent st;
              isRelevantSection := isRelevantSection st;
              disallowed := disallowed st;
              allowed := allowed st ++ [allowPath] |}
      else st
    else st
  else st.

Definition isAllowedByRobotsTxt (robotsContent : option string)
    (userAgent path : string) : bool :=
  match robotsContent with
  | None => true
  | Some content =>
      if negb (Js.truthy (Some content)) then true
      else
        let lines := (λ line, Js.toLowerCase (Js.trim line)) <$> Js.splitLines content in
        let st := foldl (robotsLine userAgent)
                    {| currentUserAgent := ""; isRelevantSection := false;
                       disallowed := []; allowed := [] |} lines in
        if existsb (λ allowPattern, Js.startsWith path allowPattern) (allowed st) then true
        else if existsb (λ disallowPattern, Js.startsWith path disallowPattern)
                  (disallowed st) then false
        else true
  end.

(* ================================================================== *)
(** ** The adapter base class ([adapters/base-adapter.ts]) *)
(* ================================================================== *)

(** [Partial<NormalizedHackathon>] *)
Record PartialHackathon : Type := mkPartial {
  p_title : option string;
  p_description : option string;
  p_start_date : option string;
  p_end_date : option string;
  p_registration_deadline : option string;
  p_location : option string;
  p_is_online : option bool;
  p_website_url : option string;
  p_registration_url : option string;
  p_source : option Source
}.

Definition toPartial (h : NormalizedHackathon) : PartialHackathon :=
  {| p_title := Some (title h); p_description := description h;
     p_start_date := Some (start_date h); p_end_date := Some (end_date h);
     p_registration_deadline := registration_deadline h;
     p_location := Some (location h); p_is_online := Some (is_online h);
     p_website_url := website_url h; p_registration_url := registration_url h;
     p_source := Some (source h) |}.

Module BaseAdapter.

(** [text.replace(/\s+/g, ' ')]; [prevWs] tells that the previous character
    belonged to the run being replaced. *)
Fixpoint replaceWhitespaceRuns (prevWs : bool) (s : string) : string :=
  match s with
  | EmptyString => EmptyString
  | String c s' =>
      if Js.isWhiteSpace c
      then if prevWs then replaceWhitespaceRuns true s'
           else String " " (replaceWhitespaceRuns true s')
      else String c (replaceWhitespaceRuns false s')
  end.

(** [text.replace(/\n+/g, ' ')] *)
Fixpoint replaceNewlineRuns (prevNl : bool) (s : string) : string :=
  match s with
  | EmptyString => EmptyString
  | String c s' =>
      if Ascii.eqb c "010"
      then if prevNl then replaceNewlineRuns true s'
           else String " " (replaceNewlineRuns true s')
      else String c (replaceNewlineRuns false s')
  end.

Definition cleanText (text : string) : string :=
  Js.trim (replaceNewlineRuns false (replaceWhitespaceRuns false text)).

Section WithDate.

Variable getTime : string -> option Z.
Variable source_id : string.

Definition normalizeDate (dateStr : string) : Completion ScrapingError string :=
  match getTime dateStr with
  | Some t => Return (Date.toISOString t)
  | None =>
      Throw (mkScrapingError ("Failed to normalize date: " +:+ dateStr) source_id None None)
  end.

(** [missing.join(', ')] *)
Fixpoint join (sep : string) (l : list string) : string :=
  match l with
  | [] => ""
  | [x] => x
  | x :: l' => x +:+ sep +:+ join sep l'
  end.

(** [startDate >= endDate] on [Date] objects: false when either is invalid. *)
Definition dateGe (d1 d2 : option Z) : bool :=
  match d1, d2 with
  | Some t1, Some t2 => (t2 <=? t1)%Z
  | _, _ => false
  end.

Definition validateHackathon (data : PartialHackathon) : Completion ScrapingError unit :=
  let required :=
    [("title", Js.truthy (p_title data));
     ("start_date", Js.truthy (p_start_date data));
     ("end_date", Js.truthy (p_end_date data));
     ("location", Js.truthy (p_location data));
     ("source", bool_decide (is_Some (p_source data)))] in
  let missing := fst <$> List.filter (λ field, negb (snd field)) required in
  if (0 <? length missing)%nat
  then Throw (mkScrapingError ("Missing required fields: " +:+ join ", " missing)
                source_id None None)
  else
    let startDate := p_start_date data ≫= getTime in
    let endDate := p_end_date data ≫= getTime in
    if dateGe startDate endDate
    then Throw (mkScrapingError "Start date must be before end date" source_id None None)
    else Return tt.

End WithDate.

End BaseAdapter.

(** *** The robots.txt check of an adapter *)

Section Robots.

Variable network : string -> nat -> FetchOutcome.
Variable httpClient : HttpClient.

(** [new URL('/robots.txt', baseUrl).toString()], for a base URL that is an
    origin such as [https://devpost.com]. *)
Definition robotsUrl (baseUrl : string) : string := baseUrl +:+ "/robots.txt".

Definition checkRobotsTxt (baseUrl : string) (st : NetState)
  : option string * NetState :=
  match get network httpClient (robotsUrl baseUrl) "robots-check" st with
  | (Return robotsContent, st') => (Some robotsContent, st')
  | (Throw _, st') => (None, st')
  end.

Definition isRobotsTxtCompliant (baseUrl : string) (scrapingPaths : list string)
    (st : NetState) : bool * NetState :=
  let '(robotsContent, st') := checkRobotsTxt baseUrl st in
  if negb (Js.truthy robotsContent) then (true, st')
  else
    let userAgent := "HackathonSnifferBot" in
    (forallb (λ path, isAllowedByRobotsTxt robotsContent userAgent path) scrapingPaths,
     st').

End Robots.

(* ================================================================== *)
(** ** Date ranges in free text (the adapters' [parseDateRange]) *)
(* ================================================================== *)

(** The result of [parseDateRange] *)
Record DateRange : Type := mkRange {
  dr_start_date : string;
  dr_end_date : string
}.

(** The patterns of [parseDateRange].  The class [[-–]] is the hyphen and the
    en dash; the en dash is not a code unit below 256. *)
Module DatePatterns.
Import RegExp.

(** [/\b(20\d{2})\b/] *)
Definition year : Regex :=
  seqs [Boundary;
        Group 1 (seqs [Class (Lit "2"); Class (Lit "0"); Repeat Digit 2 (Some 2)]);
        Boundary].

(** [/(\w{3,})\s+(\d{1,2})\s*[-–]\s*(\d{1,2}),?\s*(\d{4})?/] *)
Definition dayRangeSpaced : Regex :=
  seqs [Group 1 (Repeat Word 3 None); Repeat Space 1 None;
        Group 2 (Repeat Digit 1 (Some 2)); Repeat Space 0 None;
        Class (OneOf ["-"%char]); Repeat Space 0 None;
        Group 3 (Repeat Digit 1 (Some 2)); Repeat (Lit ",") 0 (Some 1);
        Repeat Space 0 None; Optional (Group 4 (Repeat Digit 4 (Some 4)))].

(** [/(\w{3,})\s+(\d{1,2})[-–](\d{1,2}),?\s*(\d{4})?/] *)
Definition dayRangeTight : Regex :=
  seqs [Group 1 (Repeat Word 3 None); Repeat Space 1 None;
        Group 2 (Repeat Digit 1 (Some 2));
        Class (OneOf ["-"%char]);
        Group 3 (Repeat Digit 1 (Some 2)); Repeat (Lit ",") 0 (Some 1);
        Repeat Space 0 None; Optional (Group 4 (Repeat Digit 4 (Some 4)))].

(** [/(\w{3,})\s+(\d{1,2}),?\s*(\d{4})?\s*[-–]\s*(\w{3,})\s+(\d{1,2}),?\s*(\d{4})?/] *)
Definition twoDates : Regex :=
  seqs [Group 1 (Repeat Word 3 None); Repeat Space 1 None;
        Group 2 (Repeat Digit 1 (Some 2)); Repeat (Lit ",") 0 (Some 1);
        Repeat Space 0 None; Optional (Group 3 (Repeat Digit 4 (Some 4)));
        Repeat Space 0 None; Class (OneOf ["-"%char]); Repeat Space 0 None;
        Group 4 (Repeat Word 3 None); Repeat Space 1 None;
        Group 5 (Repeat Digit 1 (Some 2)); Repeat (Lit ",") 0 (Some 1);
        Repeat Space 0 None; Optional (Group 6 (Repeat Digit 4 (Some 4)))].

End DatePatterns.

Section DateRanges.

Variable getTime : string -> option Z.
(** [new Date().getFullYear()] *)
Variable currentYear : Z.
Variable source_id : string.

(** [this.normalizeDate(new Date(text).toISOString())]; [toISOString] throws
    on an invalid date, and the caller's [catch] turns every throw into
    [null]. *)
Definition isoOf (text : string) : option string :=
  t ← getTime text;
  match BaseAdapter.normalizeDate getTime source_id (Date.toISOString t) with
  | Return iso => Some iso
  | Throw _ => None
  end.

(** The body that the adapters' [parseDateRange] share; they differ in their
    first pattern. *)
Definition parseDateRangeWith (pattern1 pattern2 : RegExp.Regex) (dateText : string)
  : option DateRange :=
  let cleanedText := Js.trim (BaseAdapter.replaceWhitespaceRuns false dateText) in
  let yearMatch := RegExp.exec DatePatterns.year cleanedText in
  let year :=
    match yearMatch with
    | Some m => default "" (m !! 1)
    | None => Js.showZ currentYear
    end in
  match RegExp.exec pattern1 cleanedText with
  | Some m =>
      let month := default "" (m !! 1) in
      let startDay := default "" (m !! 2) in
      let endDay := default "" (m !! 3) in
      let matchedYear := m !! 4 in
      let useYear := default "" (Js.or_else matchedYear (Some year)) in
      start ← isoOf (month +:+ " " +:+ startDay +:+ ", " +:+ useYear);
      end_ ← isoOf (month +:+ " " +:+ endDay +:+ ", " +:+ useYear);
      Some {| dr_start_date := start; dr_end_date := end_ |}
  | None =>
      match RegExp.exec pattern2 cleanedText with
      | Some m =>
          let startMonth := default "" (m !! 1) in
          let startDay := default "" (m !! 2) in
          let startYear := m !! 3 in
          let endMonth := default "" (m !! 4) in
          let endDay := default "" (m !! 5) in
          let endYear := m !! 6 in
          start ← isoOf (startMonth +:+ " " +:+ startDay +:+ ", "
                         +:+ default "" (Js.or_else startYear (Some year)));
          end_ ← isoOf (endMonth +:+ " " +:+ endDay +:+ ", "
                        +:+ default "" (Js.or_else endYear (Some year)));
          Some {| dr_start_date := start; dr_end_date := end_ |}
      | None => None
      end
  end.

End DateRanges.

(* ================================================================== *)
(** ** The Devpost adapter ([adapters/devpost-adapter.ts]) *)
(* ================================================================== *)

(** The fields [parseStructuredEvent] reads from a JSON-LD object;
    [ev_location] is the value of [event.location?.name || event.location]. *)
Record StructuredEvent : Type := mkEvent {
  ev_type : option string;
  ev_name : option string;
  ev_description : option string;
  ev_url : option string;
  ev_startDate : option string;
  ev_endDate : option string;
  ev_location : option string
}.

Module DevpostAdapter.

Definition source_id : string := "devpost".
Definition baseUrl : string := "https://devpost.com".

Definition getScrapingPaths : list string := ["/hackathons"].

Section WithDate.

Variable getTime : string -> option Z.

Definition parseStructuredEvent (event : StructuredEvent) : option NormalizedHackathon :=
  if negb (bool_decide (ev_type event = Some "Event")) then None
  else
    match ev_name event, ev_url event, ev_startDate event, ev_endDate event with
    | Some title, Some url, Some startDate, Some endDate =>
        if negb (Js.truthy (Some title) && Js.truthy (Some url)
                 && Js.truthy (Some startDate) && Js.truthy (Some endDate))
        then None
        else
          match BaseAdapter.normalizeDate getTime source_id startDate,
                BaseAdapter.normalizeDate getTime source_id endDate with
          | Return start, Return end_ =>
              Some {| title := BaseAdapter.cleanText title;
                      description :=
                        if Js.truthy (ev_description event)
                        then BaseAdapter.cleanText <$> ev_description event
                        else None;
                      start_date := start;
                      end_date := end_;
                      registration_deadline := None;
                      location :=
                        BaseAdapter.cleanText
                          (default "Online" (Js.or_else (ev_location event) (Some "Online")));
                      is_online :=
                        negb (Js.truthy (ev_location event))
                        || Js.includes (Js.toLowerCase (default "" (ev_location event)))
                                       "online";
                      website_url :=
                        Some (if Js.startsWith url "http" then url else baseUrl +:+ url);
                      registration_url := None;
                      source := devpost |}
          | _, _ => None
          end
    | _, _, _, _ => None
    end.

(** The loop of [extractStructuredData] over the events of the page's
    JSON-LD scripts: every event that parses is pushed to the result. *)
Definition extractStructuredData (events : list StructuredEvent)
  : list NormalizedHackathon :=
  omap parseStructuredEvent events.

End WithDate.

Definition parseDateRange (getTime : string -> option Z) (currentYear : Z)
    (dateText : string) : option DateRange :=
  parseDateRangeWith getTime currentYear source_id
    DatePatterns.dayRangeSpaced DatePatterns.twoDates dateText.

(** [parseLocation(locationText)]: the location and the online flag. *)
Definition onlineKeywords : list string := ["online"; "virtual"; "remote"; "digital"].

Definition parseLocation (locationText : string) : string * bool :=
  let text := Js.toLowerCase locationText in
  let is_online := existsb (λ keyword, Js.includes text keyword) onlineKeywords in
  let location := Js.trim locationText in
  let location :=
    if negb (Js.truthy (Some location))
    then (if is_online then "Online" else "Location TBD")
    else location in
  (location, is_online).

End DevpostAdapter.

(* ================================================================== *)
(** ** The MLH adapter ([adapters/mlh-adapter.ts]) *)
(* ================================================================== *)

Module MLHAdapter.

Definition source_id : string := "mlh".
Definition baseUrl : string := "https://mlh.io".
Definition getScrapingPaths : list string := ["/seasons/2025/events"].

Definition parseDateRange (getTime : string -> option Z) (currentYear : Z)
    (dateText : string) : option DateRange :=
  parseDateRangeWith getTime currentYear source_id
    DatePatterns.dayRangeTight DatePatterns.twoDates dateText.

(** [isOnlineEvent(locationText)] *)
Definition onlineKeywords : list string :=
  ["online"; "virtual"; "remote"; "digital"; "worldwide"; "global"].

Definition isOnlineEvent (locationText : string) : bool :=
  let text := Js.toLowerCase locationText in
  existsb (λ keyword, Js.includes text keyword) onlineKeywords.

End MLHAdapter.

(* ================================================================== *)
(** ** The scheduler ([scheduler.ts]): one adapter's ingestion *)
(* ================================================================== *)

(** [AdapterInterface] *)
Record Adapter : Type := mkAdapter {
  a_source_id : string;
  a_name : string;
  a_scrape : NetState -> Completion string (list NormalizedHackathon) * NetState;
  a_isRobotsTxtCompliant : NetState -> bool * NetState
}.

(** [ScrapingResult], without its clock readings *)
Record ScrapingResult : Type := mkResult {
  r_source_id : string;
  events_found : nat;
  events_processed : nat;
  events_created : nat;
  events_updated : nat;
  errors : list string
}.

(** An adapter that extends [BaseAdapter]. *)
Definition baseAdapter (network : string -> nat -> FetchOutcome) (httpClient : HttpClient)
    (source_id name baseUrl : string) (scrapingPaths : list string)
    (scrape : NetState -> Completion string (list NormalizedHackathon) * NetState)
  : Adapter :=
  {| a_source_id := source_id;
     a_name := name;
     a_scrape := scrape;
     a_isRobotsTxtCompliant := isRobotsTxtCompliant network httpClient baseUrl scrapingPaths |}.

Section RunAdapter.

(** The record store with [processEvent], which writes to it and counts in
    the result. *)
Variable Store : Type.
Variable processEvent :
  NormalizedHackathon -> ScrapingResult -> Store -> Completion string (ScrapingResult * Store).

(** One round of [for (const event of scrapedEvents)]. *)
Definition processOne (acc : ScrapingResult * Store) (event : NormalizedHackathon)
  : ScrapingResult * Store :=
  let '(result, store) := acc in
  match processEvent event result store with
  | Return (result', store') =>
      ({| r_source_id := r_source_id result'; events_found := events_found result';
          events_processed := S (events_processed result');
          events_created := events_created result';
          events_updated := events_updated result'; errors := errors result' |}, store')
  | Throw errorMessage =>
      ({| r_source_id := r_source_id result; events_found := events_found result;
          events_processed := events_processed result;
          events_created := events_created result;
          events_updated := events_updated result;
          errors := errors result ++ ["Event processing error: " +:+ errorMessage] |}, store)
  end.

Definition adapterError (result : ScrapingResult) (errorMessage : string)
  : ScrapingResult :=
  {| r_source_id := r_source_id result; events_found := events_found result;
     events_processed := events_processed result;
     events_created := events_created result; events_updated := events_updated result;
     errors := errors result ++ ["Adapter error: " +:+ errorMessage] |}.

Definition runAdapterIngestion (adapter : Adapter) (store : Store) (st : NetState)
  : ScrapingResult * Store * NetState :=
  let result := {| r_source_id := a_source_id adapter; events_found := 0;
                   events_processed := 0; events_created := 0; events_updated := 0;
                   errors := [] |} in
  let '(isCompliant, st1) := a_isRobotsTxtCompliant adapter st in
  if negb isCompliant
  then (adapterError result
          (a_name adapter +:+ " scraping is not compliant with robots.txt"), store, st1)
  else
    match a_scrape adapter st1 with
    | (Throw errorMessage, st2) => (adapterError result errorMessage, store, st2)
    | (Return scrapedEvents, st2) =>
        let result := {| r_source_id := r_source_id result;
                         events_found := length scrapedEvents;
                         events_processed := 0; events_created := 0;
                         events_updated := 0; errors := [] |} in
        (foldl processOne (result, store) scrapedEvents, st2)
    end.

End RunAdapter.

(* ================================================================== *)
(** ** The scheduler ([scheduler.ts]): the run state *)
(* ================================================================== *)

(** The scheduler object with what can be observed of it.  [isRunning] is the
    field of the class; [inFlight] lists the runs that have started and not
    yet settled, [started] counts the runs started, [console] is the log
    (messages without their pictographs) and [storeWrites] records, for every
    write to the store, the run that made it. *)
Record IngestionScheduler : Type := mkScheduler {
  isRunning : bool;
  inFlight : list nat;
  started : nat;
  console : list string;
  storeWrites : list nat
}.

(** What can happen between two [await]s: the timer fires, somebody calls
    [runIngestion], a run in flight writes to the store, a run in flight
    settles (its [finally] block runs). *)
Inductive SchedulerEvent : Type :=
| CronTick
| RunIngestionCall
| StoreWrite (run : nat)
| RunSettles (run : nat).

Inductive Outcome : Type :=
| RunStarted (run : nat)
| Skipped
| Threw (message : string)
| Done
| Ignored.

(** [runIngestion] past its guard, up to its first [await]. *)
Definition beginRun (this : IngestionScheduler) : IngestionScheduler * Outcome :=
  ({| isRunning := true;
      inFlight := inFlight this ++ [started this];
      started := S (started this);
      console := console this ++ ["Starting ingestion process..."];
      storeWrites := storeWrites this |},
   RunStarted (started this)).

(** [runIngestion()] *)
Definition runIngestion (this : IngestionScheduler) : IngestionScheduler * Outcome :=
  if isRunning this then (this, Threw "Ingestion is already running")
  else beginRun this.

(** The callback that [start] registers with the timer. *)
Definition cronCallback (this : IngestionScheduler) : IngestionScheduler * Outcome :=
  if isRunning this
  then ({| isRunning := isRunning this; inFlight := inFlight this;
           started := started this;
           console := console this ++ ["Ingestion already running, skipping this cycle"];
           storeWrites := storeWrites this |}, Skipped)
  else runIngestion this.

Definition step (this : IngestionScheduler) (ev : SchedulerEvent)
  : IngestionScheduler * Outcome :=
  match ev with
  | CronTick => cronCallback this
  | RunIngestionCall => runIngestion this
  | StoreWrite run =>
      if bool_decide (run ∈ inFlight this)
      then ({| isRunning := isRunning this; inFlight := inFlight this;
               started := started this; console := console this;
               storeWrites := storeWrites this ++ [run] |}, Done)
      else (this, Ignored)
  | RunSettles run =>
      if bool_decide (run ∈ inFlight this)
      then ({| isRunning := false;
               inFlight := filter (λ r, r ≠ run) (inFlight this);
               started := started this; console := console this;
               storeWrites := storeWrites this |}, Done)
      else (this, Ignored)
  end.

Definition newScheduler : IngestionScheduler :=
  {| isRunning := false; inFlight := []; started := 0; console := [];
     storeWrites := [] |}.

(** The scheduler after a sequence of events. *)
Definition after (evs : list SchedulerEvent) : IngestionScheduler :=
  foldl (λ this ev, (step this ev).1) newScheduler evs.

(* ================================================================== *)
(** * Specification-side notions *)
(* ================================================================== *)

(** The Levenshtein distance by its textbook recurrence on the first
    characters. *)
Fixpoint levenshtein (a b : list ascii) : nat :=
  match a with
  | [] => length b
  | x :: a' =>
      (fix inner (b : list ascii) : nat :=
         match b with
         | [] => length a
         | y :: b' =>
             min3 (levenshtein a' (y :: b') + 1) (inner b' + 1)
                  (levenshtein a' b' + indicator x y)
         end) b
  end.

(** Edit scripts: [edits a b n] when [a] can be turned into [b] by deletions,
    insertions and substitutions of total cost [n]. *)
Inductive edits : list ascii -> list ascii -> nat -> Prop :=
| edits_nil : edits [] [] 0
| edits_del x a b n : edits a b n -> edits (x :: a) b (S n)
| edits_ins y a b n : edits a b n -> edits a (y :: b) (S n)
| edits_sub x y a b n : edits a b n -> edits (x :: a) (y :: b) (n + indicator x y).

(** The normalised edit-distance similarity, 1 - distance / max length; two
    empty strings are identical. *)
Definition editSimilarity (s1 s2 : string) : Q :=
  let m := Nat.max (String.length s1) (String.length s2) in
  if (m =? 0)%nat then 1%Q
  else (1 - inject_Z (Z.of_nat (levenshtein (Js.chars s1) (Js.chars s2)))
            / inject_Z (Z.of_nat m))%Q.

Definition normalized (s : string) : string := Js.trim (Js.toLowerCase s).

(** The distance between the prefixes the matrix is indexed by. *)
Definition prefixDistance (a b : list ascii) : nat := levenshtein (rev a) (rev b).

(** Row [j] of the matrix from column [length p] on, for [s2[0..j) = b]. *)
Fixpoint specRow (b p s : list ascii) : list nat :=
  prefixDistance p b ::
  match s with
  | [] => []
  | c :: s' => specRow b (p ++ [c]) s'
  end.

(** Rows [j+1 ..] of the matrix, when row [j] belongs to [s2[0..j) = b]. *)
Fixpoint specRows (s1 b s2 : list ascii) : list (list nat) :=
  match s2 with
  | [] => []
  | c2 :: s2' => specRow (b ++ [c2]) [] s1 :: specRows s1 (b ++ [c2]) s2'
  end.

(** The credit for the start dates: exact match, else within three days. *)
Definition withinThreeDays (getTime : string -> option Z) (d1 d2 : string) : bool :=
  match getTime d1, getTime d2 with
  | Some t1, Some t2 => bool_decide (Z.abs (t1 - t2) <= 3 * msPerDay)%Z
  | _, _ => false
  end.

Definition startDateCredit (getTime : string -> option Z) (a b : NormalizedHackathon) : Q :=
  if decide (start_date a = start_date b) then 3 # 10
  else if withinThreeDays getTime (start_date a) (start_date b) then 15 # 100
  else 0.

Definition onlineCredit (a b : NormalizedHackathon) : Q :=
  if decide (is_online a = is_online b) then 1 # 10 else 0.

(** The single greedy pass in the specification's words, on records tagged
    with their positions: a record already assigned to a group is skipped;
    otherwise it is the primary of the later unassigned records that are
    duplicates of it, provided there is one. *)
Fixpoint greedyGroups (dup : NormalizedHackathon -> NormalizedHackathon -> bool)
    (assigned : gset nat) (records : list (nat * NormalizedHackathon))
  : list ((nat * NormalizedHackathon) * list (nat * NormalizedHackathon)) :=
  match records with
  | [] => []
  | (i, hi) :: later =>
      if decide (i ∈ assigned) then greedyGroups dup assigned later
      else
        let dups := filter (λ jh, (jh.1 ∉ assigned) ∧ (dup hi jh.2 = true)) later in
        let assigned' := list_to_set (dups.*1) ∪ assigned in
        match dups with
        | [] => greedyGroups dup assigned' later
        | _ :: _ => ((i, hi), dups) :: greedyGroups dup assigned' later
        end
  end.

Definition forgetPositions
    (g : (nat * NormalizedHackathon) * list (nat * NormalizedHackathon))
  : DuplicateGroup :=
  mkGroup g.1.2 g.2.*2.

(** The positions a list of groups mentions, primaries and duplicates. *)
Definition members
    (G : list ((nat * NormalizedHackathon) * list (nat * NormalizedHackathon)))
  : list nat :=
  concat ((λ g, g.1.1 :: g.2.*1) <$> G).

(** The positions assigned to a group as a duplicate. *)
Definition assignedAsDuplicate
    (G : list ((nat * NormalizedHackathon) * list (nat * NormalizedHackathon)))
  : list nat :=
  concat ((λ g, g.2.*1) <$> G).

(** A group of three records whose descriptions grow along the group. *)
Definition mergeEx_original : NormalizedHackathon :=
  {| title := "AI Hack 2024"; description := Some "Short";
     start_date := "2024-10-15T00:00:00.000Z"; end_date := "2024-10-17T00:00:00.000Z";
     registration_deadline := None; location := "Online"; is_online := true;
     website_url := None; registration_url := None; source := mlh |}.

Definition mergeEx_second : NormalizedHackathon :=
  {| title := "AI Hack 2024"; description := Some "A weekend hackathon";
     start_date := "2024-10-15T00:00:00.000Z"; end_date := "2024-10-17T00:00:00.000Z";
     registration_deadline := None; location := "Online"; is_online := true;
     website_url := None; registration_url := None; source := devpost |}.

Definition mergeEx_third : NormalizedHackathon :=
  {| title := "AI Hack 2024";
     description := Some "A weekend hackathon for students, with prizes and mentors";
     start_date := "2024-10-15T00:00:00.000Z"; end_date := "2024-10-17T00:00:00.000Z";
     registration_deadline := None; location := "Online"; is_online := true;
     website_url := None; registration_url := None; source := eventbrite |}.

(** The required fields of a candidate are present ... *)
Definition requiredPresent (d : PartialHackathon) : Prop :=
  Js.truthy (p_title d) = true ∧ Js.truthy (p_start_date d) = true
  ∧ Js.truthy (p_end_date d) = true ∧ Js.truthy (p_location d) = true
  ∧ is_Some (p_source d).

(** ... and its start is strictly before its end. *)
Definition startBeforeEnd (getTime : string -> option Z) (d : PartialHackathon) : Prop :=
  ∃ ts te, p_start_date d ≫= getTime = Some ts ∧ p_end_date d ≫= getTime = Some te
           ∧ (ts < te)%Z.

(** A JSON-LD event that ends before it starts. *)
Definition backwardsEvent : StructuredEvent :=
  {| ev_type := Some "Event"; ev_name := Some "Backwards Hack";
     ev_description := None; ev_url := Some "/hackathons/backwards";
     ev_startDate := Some "2024-10-17T00:00:00.000Z";
     ev_endDate := Some "2024-10-15T00:00:00.000Z";
     ev_location := None |}.

(** The failure of an attempt, if it fails: a response that is not ok, a
    body that cannot be read, or no response at all. *)
Definition failureOf (o : FetchOutcome) : option string :=
  match o with
  | Responded ok status statusText text =>
      if negb ok then Some ("HTTP " +:+ Js.showZ status +:+ ": " +:+ statusText)
      else match text with
           | Return _ => None
           | Throw e => Some e
           end
  | Failed e => Some e
  end.

(** [n] attempts numbered from [attempt] on, with a wait of
    [retryDelay * 2^(attempt-1)] after every attempt but the last. *)
Fixpoint retrySchedule (url : string) (retryDelay : Z) (attempt : Z) (n : nat)
  : list HttpEvent :=
  match n with
  | 0 => []
  | S n' =>
      EvFetch url attempt ::
      match n' with
      | 0 => []
      | S _ => EvSleep (retryDelay * 2 ^ (attempt - 1))
               :: retrySchedule url retryDelay (attempt + 1) n'
      end
  end.

(** A client configured for two attempts, half a second apart. *)
Definition twoAttempts : HttpClientOptions :=
  {| opt_userAgent := None; opt_timeout := None; opt_maxRetries := Some 2%Z;
     opt_retryDelay := Some 500%Z; opt_rateLimitConfig := None |}.

(** A network on which every request is refused. *)
Definition deadNetwork : string -> nat -> FetchOutcome :=
  λ _ _, Failed "ECONNREFUSED".

Definition idleNet : NetState := {| fetchCount := 0; events := [] |}.

Definition nl : string := String "010" EmptyString.

(** The rule of the claim, alone and followed by a block for another
    crawler. *)
Definition robotsMinimal : string :=
  "User-agent: *" +:+ nl +:+ "Disallow: /hackathons".

Definition robotsTwoBlocks : string :=
  "User-agent: *" +:+ nl +:+ "Disallow: /hackathons" +:+ nl +:+ nl
  +:+ "User-agent: Googlebot" +:+ nl +:+ "Disallow: /private" +:+ nl.

(** A site that serves the given robots.txt and a page everywhere else. *)
Definition siteWithRobots (robots : string) : string -> nat -> FetchOutcome :=
  λ url _,
    if String.eqb url "https://devpost.com/robots.txt"
    then Responded true 200 "OK" (Return robots)
    else Responded true 200 "OK" (Return "<html></html>").

(** A scrape that fetches the listing page and finds nothing on it. *)
Definition listingScrape (network : string -> nat -> FetchOutcome)
    (httpClient : HttpClient) (st : NetState)
  : Completion string (list NormalizedHackathon) * NetState :=
  match get network httpClient "https://devpost.com/hackathons" "devpost" st with
  | (Return _, st') => (Return [], st')
  | (Throw e, st') => (Throw (se_message e), st')
  end.

Definition devpostOn (network : string -> nat -> FetchOutcome) : Adapter :=
  baseAdapter network (newHttpClient noOptions) DevpostAdapter.source_id "Devpost"
    DevpostAdapter.baseUrl DevpostAdapter.getScrapingPaths
    (listingScrape network (newHttpClient noOptions)).

(** A store that is never written. *)
Definition noProcessing (event : NormalizedHackathon) (result : ScrapingResult)
    (store : unit) : Completion string (ScrapingResult * unit) :=
  Return (result, store).

(** A trigger that is "a no-op, logged and skipped": nothing changes but the
    log, which gains the message of the skipped cycle. *)
Definition loggedAndSkipped (this : IngestionScheduler) (ev : SchedulerEvent) : Prop :=
  step this ev =
  ({| isRunning := isRunning this; inFlight := inFlight this; started := started this;
      console := console this ++ ["Ingestion already running, skipping this cycle"];
      storeWrites := storeWrites this |}, Skipped).

(** The writes of two runs do not interleave: between two writes of a run
    there are only writes of that run. *)
Definition notInterleaved (writes : list nat) : Prop :=
  ∀ i j k r, i < j < k -> writes !! i = Some r -> writes !! k = Some r ->
             writes !! j = Some r.

(** The range between two dates written with one year. *)
Definition rangeInYear (getTime : string -> option Z) (source_id : string)
    (startMonth startDay endMonth endDay year : string) : option DateRange :=
  start ← isoOf getTime source_id (startMonth +:+ " " +:+ startDay +:+ ", " +:+ year);
  end_ ← isoOf getTime source_id (endMonth +:+ " " +:+ endDay +:+ ", " +:+ year);
  Some {| dr_start_date := start; dr_end_date := end_ |}.

(** The rule for a date text without a year: when neither the year pattern
    nor the year groups of the matching pattern find one, both endpoints are
    taken in the current year. *)
Definition usesCurrentYear (parse : string -> option DateRange)
    (pattern1 pattern2 : RegExp.Regex) (getTime : string -> option Z)
    (source_id : string) (currentYear : Z) : Prop :=
  ∀ dateText,
    let cleanedText := Js.trim (BaseAdapter.replaceWhitespaceRuns false dateText) in
    RegExp.exec DatePatterns.year cleanedText = None ->
    match RegExp.exec pattern1 cleanedText with
    | Some m =>
        m !! 4 = None ->
        parse dateText =
        rangeInYear getTime source_id (default "" (m !! 1)) (default "" (m !! 2))
          (default "" (m !! 1)) (default "" (m !! 3)) (Js.showZ currentYear)
    | None =>
        match RegExp.exec pattern2 cleanedText with
        | Some m =>
            m !! 3 = None -> m !! 6 = None ->
            parse dateText =
            rangeInYear getTime source_id (default "" (m !! 1)) (default "" (m !! 2))
              (default "" (m !! 4)) (default "" (m !! 5)) (Js.showZ currentYear)
        | None => parse dateText = None
        end
    end.

(** The check that, on a host at offset [tz], the Devpost parser maps the
    text to two time values whose local calendar dates are the given ones. *)
Definition localDatesAre (tz : Z) (dateText : string) (d1 d2 : Z * Z * Z) : bool :=
  match DevpostAdapter.parseDateRange (Date.parse tz) 0 dateText with
  | Some r =>
      match Date.parse tz (dr_start_date r), Date.parse tz (dr_end_date r) with
      | Some ts, Some te =>
          bool_decide (Date.civil tz ts = d1) && bool_decide (Date.civil tz te = d2)
      | _, _ => false
      end
  | None => false
  end.

(** The time value of local midnight of the civil date y-m-d on a host whose
    local time is [tz] minutes ahead of UTC. *)
Definition localMidnight (tz y m d : Z) : Z :=
  (Date.daysFromCivil y m d * Date.msPerDay - tz * 60000)%Z.

(** The check that, on a host at offset [tz], the Devpost parser maps the
    text to the ISO timestamps of the two given time values, which the [Date]
    parser reads back. *)
Definition timestampsAre (tz : Z) (dateText : string) (t1 t2 : Z) : bool :=
  match DevpostAdapter.parseDateRange (Date.parse tz) 0 dateText with
  | Some r =>
      bool_decide (dr_start_date r = Date.toISOString t1)
      && bool_decide (dr_end_date r = Date.toISOString t2)
      && bool_decide (Date.parse tz (dr_start_date r) = Some t1)
      && bool_decide (Date.parse tz (dr_end_date r) = Some t2)
  | None => false
  end.

(** The offsets of local time from UTC, in minutes: UTC-12:00 to UTC+14:00. *)
Definition zoneOffsets : list Z := (λ n, Z.of_nat n - 720)%Z <$> seq 0 1561.

(** The invariant of the scheduler's run state. *)
Definition ascending (ws : list nat) : Prop :=
  ∀ i j a b, i < j -> ws !! i = Some a -> ws !! j = Some b -> a <= b.

Record schedulerInv (this : IngestionScheduler) : Prop := {
  inv_single : length (inFlight this) <= 1;
  inv_flag : isRunning this = true ↔ inFlight this ≠ [];
  inv_flight_old : ∀ r, r ∈ inFlight this -> r < started this;
  inv_write_old : ∀ w, w ∈ storeWrites this -> w < started this;
  inv_write_le : ∀ w r, w ∈ storeWrites this -> r ∈ inFlight this -> w <= r;
  inv_ascending : ascending (storeWrites this)
}.

(** The canonical form of a parsed URL, by the kind of URL.

    The host: a URL with an opaque path keeps its host.  Otherwise a leading
    "www." goes; when nothing is left of the host, a special URL and a URL
    with credentials or a port keep the host they have, and another URL gets
    the empty host; a [file:] URL gets the empty host also for
    "localhost". *)
Definition canonicalHost (u : Url.URL) : option string :=
  let rest := Url.stripWww (Url.hostname u) in
  if Url.opaquePath u then Url.host u
  else if String.eqb (Url.protocol u) "file:"
  then Some (if String.eqb rest "localhost" then "" else rest)
  else if negb (String.eqb rest "") then Some rest
  else if Url.isSpecial u || Url.includesCredentials u
          || negb (String.eqb (Url.port u) "")
  then Url.host u
  else Some "".

(** The path: a URL with an opaque path keeps its path.  Otherwise one
    trailing slash goes; when nothing is left of the path, which is then the
    root path, a special URL and a URL without a host keep the root path, and
    another URL gets the empty path. *)
Definition canonicalPath (u : Url.URL) : string :=
  let rest := Url.stripTrailingSlash (Url.pathname u) in
  if Url.opaquePath u then Url.pathname u
  else if String.eqb rest ""
  then (if Url.isSpecial u || bool_decide (canonicalHost u = None) then "/" else "")
  else if Js.startsWith (Url.pathname u) "/" then rest else "/" +:+ rest.

(** No tracking parameters, the canonical host and the canonical path. *)
Definition canonicalURL (u : Url.URL) : Url.URL :=
  {| Url.protocol := Url.protocol u; Url.username := Url.username u;
     Url.password := Url.password u;
     Url.host := canonicalHost u;
     Url.port := Url.port u;
     Url.opaquePath := Url.opaquePath u;
     Url.pathname := canonicalPath u;
     Url.searchParams := filter (λ p, p.1 ∉ trackingParams) (Url.searchParams u);
     Url.hash := Url.hash u |}.

(** What the platform's parser makes of [mailto:a@b.com/?ref=x] and of
    [foo://www.example.com/?ref=x]. *)
Definition mailtoURL : Url.URL :=
  {| Url.protocol := "mailto:"; Url.username := ""; Url.password := "";
     Url.host := None; Url.port := ""; Url.opaquePath := true;
     Url.pathname := "a@b.com/"; Url.searchParams := [("ref", "x")]; Url.hash := "" |}.

Definition fooURL : Url.URL :=
  {| Url.protocol := "foo:"; Url.username := ""; Url.password := "";
     Url.host := Some "www.example.com"; Url.port := ""; Url.opaquePath := false;
     Url.pathname := "/"; Url.searchParams := [("ref", "x")]; Url.hash := "" |}.

(** An [http] or [https] URL: special, with a host and a path that is not
    opaque and starts with a slash. *)
Definition isHttp (u : Url.URL) : Prop :=
  (Url.protocol u = "http:" ∨ Url.protocol u = "https:")
  ∧ Url.opaquePath u = false ∧ is_Some (Url.host u)
  ∧ Js.startsWith (Url.pathname u) "/" = true.

(** The canonical form in the words of the specification, for an [http] or
    [https] URL: no leading "www." on the host unless the host is "www."
    alone, and no trailing slash on the path unless the path is the root
    path. *)
Definition canonicalHttpURL (u : Url.URL) : Url.URL :=
  {| Url.protocol := Url.protocol u; Url.username := Url.username u;
     Url.password := Url.password u;
     Url.host :=
       if String.eqb (Url.hostname u) "www." then Url.host u
       else Some (Url.stripWww (Url.hostname u));
     Url.port := Url.port u;
     Url.opaquePath := false;
     Url.pathname :=
       if String.eqb (Url.pathname u) "/" then "/"
       else Url.stripTrailingSlash (Url.pathname u);
     Url.searchParams := filter (λ p, p.1 ∉ trackingParams) (Url.searchParams u);
     Url.hash := Url.hash u |}.

(** The same URL without its tracking parameters. *)
Definition withoutTracking (u : Url.URL) : Url.URL :=
  {| Url.protocol := Url.protocol u; Url.username := Url.username u;
     Url.password := Url.password u; Url.host := Url.host u; Url.port := Url.port u;
     Url.opaquePath := Url.opaquePath u; Url.pathname := Url.pathname u;
     Url.searchParams := filter (λ p, p.1 ∉ trackingParams) (Url.searchParams u);
     Url.hash := Url.hash u |}.

(** Text in which white space occurs only as single spaces; [prevSpace]
    tells that the character before the text is a space. *)
Fixpoint singleSpaced (prevSpace : bool) (s : string) : bool :=
  match s with
  | EmptyString => true
  | String c s' =>
      if Js.isWhiteSpace c
      then Ascii.eqb c " " && negb prevSpace && singleSpaced true s'
      else singleSpaced false s'
  end.

(** A candidate whose required fields are present but whose start date does
    not parse. *)
Definition undatedCandidate : PartialHackathon :=
  {| p_title := Some "Hack Night"; p_description := None;
     p_start_date := Some "next week"; p_end_date := Some "2024-10-17T00:00:00.000Z";
     p_registration_deadline := None; p_location := Some "Online";
     p_is_online := Some true; p_website_url := None; p_registration_url := None;
     p_source := Some devpost |}.

(** A network whose first two answers fail and whose later answers are a
    page. *)
Definition flakyNetwork : string -> nat -> FetchOutcome :=
  λ _ n, if (n <? 2)%nat then Failed "ETIMEDOUT"
         else Responded true 200 "OK" (Return "<html></html>").

(** A (lowercased, trimmed) line of robots.txt that opens a block whose rules
    apply to the crawler [userAgent]. *)
Definition opensRelevantBlock (userAgent line : string) : bool :=
  Js.startsWith line "user-agent:"
  && (let agent := Js.trim (Js.substringFrom (String.length "user-agent:") line) in
      String.eqb agent "*"
      || String.eqb agent (Js.toLowerCase userAgent)
      || Js.includes (Js.toLowerCase userAgent) agent).

(** The first line of a text. *)
Definition firstLine (s : string) : string := default "" (head (Js.splitLines s)).

(** A store that refuses a record without a title and appends every other
    one, counting it as created. *)
Definition storeTitled (event : NormalizedHackathon) (result : ScrapingResult)
    (store : list NormalizedHackathon)
  : Completion string (ScrapingResult * list NormalizedHackathon) :=
  if String.eqb (title event) ""
  then Throw "NOT NULL constraint failed: hackathons.title"
  else Return ({| r_source_id := r_source_id result; events_found := events_found result;
                  events_processed := events_processed result;
                  events_created := S (events_created result);
                  events_updated := events_updated result; errors := errors result |},
               store ++ [event]).

Definition untitledEvent : NormalizedHackathon :=
  {| title := ""; description := None;
     start_date := "2024-11-01T00:00:00.000Z"; end_date := "2024-11-03T00:00:00.000Z";
     registration_deadline := None; location := "Online"; is_online := true;
     website_url := None; registration_url := None; source := mlh |}.

(** An adapter that is compliant and scrapes the given events without a
    request. *)
Definition scrapedAdapter (scrapedEvents : list NormalizedHackathon) : Adapter :=
  {| a_source_id := "mlh"; a_name := "MLH";
     a_scrape := λ st, (Return scrapedEvents, st);
     a_isRobotsTxtCompliant := λ st, (true, st) |}.

(** [processEvent] leaves to its caller the counting of processed events and
    the list of errors: it changes at most the counters of created and updated
    events. *)
Definition countsOnly {Store : Type}
    (processEvent : NormalizedHackathon -> ScrapingResult -> Store
                    -> Completion string (ScrapingResult * Store)) : Prop :=
  ∀ event result store result' store',
    processEvent event result store = Return (result', store') ->
    r_source_id result' = r_source_id result
    ∧ events_found result' = events_found result
    ∧ events_processed result' = events_processed result
    ∧ errors result' = errors result.

(** An optional field of the merged record is kept from the group: it is
    present exactly when some member has it, and it is then a member's. *)
Definition keptFrom (group : list NormalizedHackathon)
    (field : NormalizedHackathon -> option string) (merged : NormalizedHackathon) : Prop :=
  (Js.truthy (field merged) = true ↔ ∃ e, e ∈ group ∧ Js.truthy (field e) = true)
  ∧ (Js.truthy (field merged) = true -> ∃ e, e ∈ group ∧ field merged = field e).

(* ================================================================== *)
(** * Theorems *)
(* ================================================================== *)

(* ------------------------------------------------------------------ *)
(** ** The matrix computes the Levenshtein distance *)
(* ------------------------------------------------------------------ *)

Section EditDistance.

Implicit Types a b : list ascii.

Lemma levenshtein_nil_r a : levenshtein a [] = length a.
Proof. by destruct a. Qed.

Lemma levenshtein_cons_cons x y a b :
  levenshtein (x :: a) (y :: b) =
  min3 (levenshtein a (y :: b) + 1) (levenshtein (x :: a) b + 1)
       (levenshtein a b + indicator x y).
Proof. reflexivity. Qed.

Lemma indicator_sym x y : indicator x y = indicator y x.
Proof. unfold indicator. by rewrite Ascii.eqb_sym. Qed.

Lemma indicator_le x y : indicator x y <= 1.
Proof. unfold indicator. destruct (Ascii.eqb x y); lia. Qed.

(** The recurrence yields the cost of some edit script ... *)
Lemma levenshtein_edits a b : edits a b (levenshtein a b).
Proof.
  revert b. induction a as [|x a IHa]; intros b.
  - induction b as [|y b IHb]; simpl; [constructor|].
    by apply edits_ins.
  - induction b as [|y b IHb].
    + rewrite levenshtein_nil_r. simpl. apply edits_del.
      specialize (IHa []). by rewrite levenshtein_nil_r in IHa.
    + rewrite levenshtein_cons_cons. unfold min3.
      destruct (Nat.min_spec (levenshtein a (y :: b) + 1) (levenshtein (x :: a) b + 1))
        as [[_ ->]|[_ ->]];
      match goal with
      | |- edits _ _ (Nat.min ?u ?v) =>
          destruct (Nat.min_spec u v) as [[_ ->]|[_ ->]]
      end;
      try (rewrite Nat.add_1_r; (by apply edits_del) || (by apply edits_ins));
      by apply edits_sub.
Qed.

(** ... and no edit script is cheaper. *)
Lemma levenshtein_least a b n : edits a b n -> levenshtein a b <= n.
Proof.
  induction 1 as [|x a b n _ IH|y a b n _ IH|x y a b n _ IH].
  - done.
  - destruct b as [|y b].
    + rewrite !levenshtein_nil_r in *. simpl. lia.
    + rewrite levenshtein_cons_cons. unfold min3. lia.
  - destruct a as [|x a].
    + simpl in *. lia.
    + rewrite levenshtein_cons_cons. unfold min3. lia.
  - rewrite levenshtein_cons_cons. unfold min3. lia.
Qed.

Lemma edits_snoc_del a b n x : edits a b n -> edits (a ++ [x]) b (S n).
Proof.
  induction 1; simpl.
  - apply edits_del, edits_nil.
  - by apply edits_del.
  - by apply edits_ins.
  - apply (edits_sub _ _ _ _ (S n)). done.
Qed.

Lemma edits_snoc_ins a b n y : edits a b n -> edits a (b ++ [y]) (S n).
Proof.
  induction 1; simpl.
  - apply edits_ins, edits_nil.
  - by apply edits_del.
  - by apply edits_ins.
  - apply (edits_sub _ _ _ _ (S n)). done.
Qed.

Lemma edits_snoc_sub a b n x y :
  edits a b n -> edits (a ++ [x]) (b ++ [y]) (n + indicator x y).
Proof.
  induction 1 as [|x' a b n _ IH|y' a b n _ IH|x' y' a b n _ IH]; simpl.
  - apply (edits_sub x y [] [] 0), edits_nil.
  - by apply (edits_del x' _ _ (n + indicator x y)).
  - by apply (edits_ins y' _ _ (n + indicator x y)).
  - replace (n + indicator x' y' + indicator x y)
      with (n + indicator x y + indicator x' y') by lia.
    by apply edits_sub.
Qed.

Lemma edits_rev a b n : edits a b n -> edits (rev a) (rev b) n.
Proof.
  induction 1; simpl.
  - constructor.
  - by apply edits_snoc_del.
  - by apply edits_snoc_ins.
  - by apply edits_snoc_sub.
Qed.

Lemma edits_sym a b n : edits a b n -> edits b a n.
Proof.
  induction 1.
  - constructor.
  - by apply edits_ins.
  - by apply edits_del.
  - rewrite indicator_sym. by apply edits_sub.
Qed.

Lemma levenshtein_rev a b : levenshtein (rev a) (rev b) = levenshtein a b.
Proof.
  apply Nat.le_antisymm.
  - apply levenshtein_least, edits_rev, levenshtein_edits.
  - pose proof (levenshtein_least _ _ _
      (edits_rev _ _ _ (levenshtein_edits (rev a) (rev b)))) as H.
    by rewrite !rev_involutive in H.
Qed.

Lemma levenshtein_sym a b : levenshtein a b = levenshtein b a.
Proof.
  apply Nat.le_antisymm; apply levenshtein_least, edits_sym, levenshtein_edits.
Qed.

Lemma levenshtein_le_max a b : levenshtein a b <= Nat.max (length a) (length b).
Proof.
  revert b. induction a as [|x a IH]; intros b.
  - simpl. lia.
  - destruct b as [|y b].
    + rewrite levenshtein_nil_r. lia.
    + rewrite levenshtein_cons_cons. unfold min3.
      specialize (IH b). pose proof (indicator_le x y). simpl. lia.
Qed.

Lemma levenshtein_refl a : levenshtein a a = 0.
Proof.
  induction a as [|x a IH]; [done|].
  rewrite levenshtein_cons_cons, IH. unfold min3, indicator.
  rewrite Ascii.eqb_refl. lia.
Qed.

Lemma prefixDistance_nil_r a : prefixDistance a [] = length a.
Proof. unfold prefixDistance. simpl. by rewrite levenshtein_nil_r, length_rev. Qed.

Lemma prefixDistance_nil_l b : prefixDistance [] b = length b.
Proof. unfold prefixDistance. simpl. by rewrite length_rev. Qed.

Lemma prefixDistance_snoc a b x y :
  prefixDistance (a ++ [x]) (b ++ [y]) =
  min3 (prefixDistance a (b ++ [y]) + 1) (prefixDistance (a ++ [x]) b + 1)
       (prefixDistance a b + indicator x y).
Proof. unfold prefixDistance. by rewrite !rev_unit. Qed.

Lemma specRow_nil p s : specRow [] p s = seq (length p) (S (length s)).
Proof.
  revert p. induction s as [|c s IH]; intros p; simpl.
  - by rewrite prefixDistance_nil_r.
  - rewrite prefixDistance_nil_r. f_equal.
    specialize (IH (p ++ [c])). rewrite length_app in IH. simpl in IH.
    rewrite Nat.add_1_r in IH. exact IH.
Qed.

Lemma fillRow_spec c2 b p s :
  prefixDistance p (b ++ [c2]) :: fillRow c2 s (specRow b p s) (prefixDistance p (b ++ [c2]))
  = specRow (b ++ [c2]) p s.
Proof.
  revert p. induction s as [|c1 s IH]; intros p; [done|].
  cbn [specRow fillRow]. f_equal.
  destruct s as [|c1' s]; cbn [specRow].
  - cbn [fillRow]. by rewrite <- prefixDistance_snoc.
  - rewrite <- prefixDistance_snoc.
    specialize (IH (p ++ [c1])). cbn [specRow] in IH. exact IH.
Qed.

Lemma fillRows_spec s1 b s2 :
  fillRows s1 s2 (S (length b)) (specRow b [] s1) = specRows s1 b s2.
Proof.
  revert b. induction s2 as [|c2 s2 IH]; intros b; [done|].
  cbn [fillRows specRows].
  pose proof (fillRow_spec c2 b [] s1) as Hrow.
  rewrite prefixDistance_nil_l, length_app in Hrow. simpl in Hrow.
  rewrite Nat.add_1_r in Hrow. rewrite Hrow. f_equal.
  specialize (IH (b ++ [c2])). rewrite length_app in IH. simpl in IH.
  rewrite Nat.add_1_r in IH. exact IH.
Qed.

Lemma specRows_lookup_last s1 b s2 :
  (specRow b [] s1 :: specRows s1 b s2) !! length s2 = Some (specRow (b ++ s2) [] s1).
Proof.
  revert b. induction s2 as [|c2 s2 IH]; intros b.
  - simpl. by rewrite app_nil_r.
  - cbn [length specRows]. rewrite lookup_cons. 
    rewrite IH. by rewrite <- app_assoc.
Qed.

Lemma specRow_lookup_last b p s :
  specRow b p s !! length s = Some (prefixDistance (p ++ s) b).
Proof.
  revert p. induction s as [|c s IH]; intros p.
  - simpl. by rewrite app_nil_r.
  - cbn [length specRow]. rewrite lookup_cons.
    rewrite IH. by rewrite <- app_assoc.
Qed.

(** The bottom-right cell is the Levenshtein distance. *)
Lemma levenshteinMatrix_correct s1 s2 :
  cell (levenshteinMatrix s1 s2) (length s2) (length s1) = levenshtein s1 s2.
Proof.
  unfold cell, levenshteinMatrix.
  pose proof (specRow_nil [] s1) as Hrow0.
  change (length (@nil ascii)) with 0 in Hrow0.
  cbv zeta. rewrite <- Hrow0.
  pose proof (fillRows_spec s1 [] s2) as Hrows.
  change (length (@nil ascii)) with 0 in Hrows.
  rewrite Hrows, specRows_lookup_last. simpl.
  rewrite specRow_lookup_last. simpl.
  unfold prefixDistance. apply levenshtein_rev.
Qed.

End EditDistance.

Example toLowerCase_ex : Js.toLowerCase "AI Hack 2024" = "ai hack 2024".
Proof. reflexivity. Qed.

Example trim_ex : Js.trim "  a b  " = "a b".
Proof. reflexivity. Qed.

Example matrix_ex :
  cell (levenshteinMatrix (Js.chars "kitten") (Js.chars "sitting")) 7 6 = 3.
Proof. reflexivity. Qed.

(* ------------------------------------------------------------------ *)
(** ** The similarity score *)
(* ------------------------------------------------------------------ *)

Lemma chars_length s : length (Js.chars s) = String.length s.
Proof. induction s; simpl; congruence. Qed.

Lemma levenshtein_chars_max s t :
  levenshtein (Js.chars s) (Js.chars t) <= Nat.max (String.length s) (String.length t).
Proof. rewrite <- !chars_length. apply levenshtein_le_max. Qed.

Lemma stringSimilarity_cell s1 s2 :
  cell (levenshteinMatrix (Js.chars s1) (Js.chars s2)) (String.length s2) (String.length s1)
  = levenshtein (Js.chars s1) (Js.chars s2).
Proof. rewrite <- !chars_length. apply levenshteinMatrix_correct. Qed.

Lemma inject_Z_nat_nonzero n : n <> 0 -> ~ (inject_Z (Z.of_nat n) == 0)%Q.
Proof. intros Hn H. unfold Qeq in H. simpl in H. lia. Qed.

Lemma stringSimilarity_editSimilarity str1 str2 :
  (stringSimilarity str1 str2 == editSimilarity (normalized str1) (normalized str2))%Q.
Proof.
  unfold stringSimilarity, editSimilarity, normalized.
  set (s1 := Js.trim (Js.toLowerCase str1)). set (s2 := Js.trim (Js.toLowerCase str2)).
  rewrite stringSimilarity_cell.
  destruct (String.eqb_spec s1 s2) as [->|Hne].
  - rewrite levenshtein_refl, Nat.max_id.
    destruct (Nat.eqb_spec (String.length s2) 0) as [|Hlen]; [reflexivity|].
    simpl. field. by apply inject_Z_nat_nonzero.
  - destruct (Nat.eqb_spec (Nat.max (String.length s1) (String.length s2)) 0) as [Hm|Hm].
    { destruct s1, s2; simpl in *; try lia. done. }
    destruct (Nat.eqb_spec (String.length s1) 0) as [H1|H1]; simpl.
    { destruct s1; [|done]. simpl. rewrite chars_length.
      simpl in Hm. field. by apply inject_Z_nat_nonzero. }
    destruct (Nat.eqb_spec (String.length s2) 0) as [H2|H2]; simpl.
    { destruct s2; [|done]. rewrite levenshtein_nil_r, chars_length.
      rewrite Nat.max_0_r in *. field. by apply inject_Z_nat_nonzero. }
    unfold Zminus. rewrite inject_Z_plus, inject_Z_opp. field.
    by apply inject_Z_nat_nonzero.
Qed.

Lemma editSimilarity_bounds s1 s2 : (0 <= editSimilarity s1 s2 <= 1)%Q.
Proof.
  unfold editSimilarity.
  destruct (Nat.eqb_spec (Nat.max (String.length s1) (String.length s2)) 0) as [Hm|Hm].
  { split; discriminate. }
  pose proof (levenshtein_chars_max s1 s2) as Hle.
  set (d := levenshtein _ _) in *. set (m := Nat.max _ _) in *.
  assert (0 < inject_Z (Z.of_nat m))%Q as Hpos.
  { change 0%Q with (inject_Z 0). rewrite <- Zlt_Qlt. lia. }
  assert (0 <= inject_Z (Z.of_nat d) / inject_Z (Z.of_nat m) <= 1)%Q as [H0 H1].
  { split.
    - apply Qle_shift_div_l; [done|]. rewrite Qmult_0_l.
      change 0%Q with (inject_Z 0). rewrite <- Zle_Qle. lia.
    - apply Qle_shift_div_r; [done|]. rewrite Qmult_1_l.
      rewrite <- Zle_Qle. lia. }
  split; lra.
Qed.

Lemma stringSimilarity_bounds s1 s2 : (0 <= stringSimilarity s1 s2 <= 1)%Q.
Proof. rewrite stringSimilarity_editSimilarity. apply editSimilarity_bounds. Qed.

Lemma stringSimilarity_sym s1 s2 : stringSimilarity s1 s2 = stringSimilarity s2 s1.
Proof.
  unfold stringSimilarity.
  set (t1 := Js.trim (Js.toLowerCase s1)). set (t2 := Js.trim (Js.toLowerCase s2)).
  rewrite (String.eqb_sym t2 t1), (orb_comm (String.length t2 =? 0)%nat).
  rewrite !stringSimilarity_cell, (levenshtein_sym (Js.chars t2)).
  by rewrite (Nat.max_comm (String.length t2)).
Qed.

Lemma daysDiff_le_3 (t1 t2 : Z) :
  Qle_bool (inject_Z (Z.abs (t1 - t2)) / inject_Z msPerDay) 3
  = bool_decide (Z.abs (t1 - t2) <= 3 * msPerDay)%Z.
Proof.
  assert (0 < inject_Z msPerDay)%Q as Hpos by reflexivity.
  apply eq_true_iff_eq. rewrite Qle_bool_iff, bool_decide_eq_true.
  rewrite <- (Qmult_le_r _ _ (inject_Z msPerDay) Hpos).
  setoid_replace (inject_Z (Z.abs (t1 - t2)) / inject_Z msPerDay * inject_Z msPerDay)%Q
    with (inject_Z (Z.abs (t1 - t2))) using relation Qeq by (field; discriminate).
  by rewrite Zle_Qle, inject_Z_mult.
Qed.

Lemma calculateSimilarity_sum getTime a b :
  (calculateSimilarity getTime a b ==
     (4 # 10) * stringSimilarity (title a) (title b)
     + startDateCredit getTime a b
     + (2 # 10) * stringSimilarity (location a) (location b)
     + onlineCredit a b)%Q.
Proof.
  unfold calculateSimilarity, startDateCredit, onlineCredit, withinThreeDays.
  destruct (String.eqb_spec (start_date a) (start_date b)) as [Hd|Hd];
    destruct (decide (start_date a = start_date b)) as [Hd'|Hd']; try done;
    destruct (Bool.eqb_spec (is_online a) (is_online b)) as [Ho|Ho];
    destruct (decide (is_online a = is_online b)) as [Ho'|Ho']; try done;
    try (destruct (getTime (start_date a)) as [t1|], (getTime (start_date b)) as [t2|];
         try rewrite daysDiff_le_3; try destruct (bool_decide _));
    field.
Qed.

(** C1. The similarity score is the weighted sum of the title similarity
    (0.4), the start-date credit (0.3 for equal start dates, 0.15 when they
    are at most three days apart, else 0), the location similarity (0.2) and
    the online-flag credit (0.1), where the string similarities are the
    normalised Levenshtein similarities of the lowercased, trimmed strings;
    the score lies in [0,1]; [isDuplicate] holds exactly when the score is at
    least the threshold, and the threshold defaults to 0.85. *)
Theorem calculateSimilarity_weighted_sum (getTime : string -> option Z)
    (a b : NormalizedHackathon) :
  (calculateSimilarity getTime a b ==
     (4 # 10) * editSimilarity (normalized (title a)) (normalized (title b))
     + startDateCredit getTime a b
     + (2 # 10) * editSimilarity (normalized (location a)) (normalized (location b))
     + onlineCredit a b)%Q
  ∧ (0 <= calculateSimilarity getTime a b <= 1)%Q
  ∧ (∀ threshold : Q,
       isDuplicate getTime a b (Some threshold) = true
       ↔ (threshold <= calculateSimilarity getTime a b)%Q)
  ∧ isDuplicate getTime a b None = isDuplicate getTime a b (Some (85 # 100)).
Proof.
  pose proof (calculateSimilarity_sum getTime a b) as Hsum.
  pose proof (stringSimilarity_bounds (title a) (title b)) as [Ht0 Ht1].
  pose proof (stringSimilarity_bounds (location a) (location b)) as [Hl0 Hl1].
  assert (0 <= startDateCredit getTime a b <= 3 # 10)%Q as [Hd0 Hd1].
  { unfold startDateCredit. repeat case_match; split; discriminate. }
  assert (0 <= onlineCredit a b <= 1 # 10)%Q as [Ho0 Ho1].
  { unfold onlineCredit. case_match; split; discriminate. }
  split; [|split; [|split]].
  - rewrite Hsum, !stringSimilarity_editSimilarity. reflexivity.
  - rewrite Hsum. split; lra.
  - intros threshold. unfold isDuplicate. simpl. apply Qle_bool_iff.
  - reflexivity.
Qed.

Lemma calculateSimilarity_sym (getTime : string -> option Z)
    (a b : NormalizedHackathon) :
  calculateSimilarity getTime a b = calculateSimilarity getTime b a.
Proof.
  unfold calculateSimilarity.
  rewrite (stringSimilarity_sym (title b)), (stringSimilarity_sym (location b)).
  rewrite (String.eqb_sym (start_date b)).
  replace (Bool.eqb (is_online b) (is_online a))
    with (Bool.eqb (is_online a) (is_online b))
    by (by destruct (is_online a), (is_online b)).
  destruct (getTime (start_date a)) as [t1|], (getTime (start_date b)) as [t2|]; try done.
  by replace (Z.abs (t2 - t1)) with (Z.abs (t1 - t2)) by lia.
Qed.

(** C9. The similarity score is symmetric in its two records. *)
Theorem calculateSimilarity_symmetric (getTime : string -> option Z)
    (a b : NormalizedHackathon) :
  calculateSimilarity getTime a b = calculateSimilarity getTime b a.
Proof. apply calculateSimilarity_sym. Qed.

Lemma isDuplicate_sym getTime a b threshold :
  isDuplicate getTime a b threshold = isDuplicate getTime b a threshold.
Proof. unfold isDuplicate. by rewrite calculateSimilarity_sym. Qed.

(* ------------------------------------------------------------------ *)
(** ** The greedy grouping pass *)
(* ------------------------------------------------------------------ *)

Lemma indexedFrom_fst {A} k (l : list A) : (indexedFrom k l).*1 = seq k (length l).
Proof. revert k. induction l as [|x l IH]; intros k; simpl; [done|]. by rewrite IH. Qed.

Lemma indexedFrom_lookup {A} k (l : list A) p :
  indexedFrom k l !! p = (λ x, (k + p, x)) <$> l !! p.
Proof.
  revert k p. induction l as [|x l IH]; intros k [|p]; simpl; try done.
  - by rewrite Nat.add_0_r.
  - rewrite IH. by rewrite Nat.add_succ_r.
Qed.

Lemma indexedFrom_NoDup {A} k (l : list A) : NoDup (indexedFrom k l).*1.
Proof. rewrite indexedFrom_fst. apply NoDup_seq. Qed.

Lemma filter_ext_elem {A} (P1 P2 : A -> Prop)
    `{!∀ x, Decision (P1 x)} `{!∀ x, Decision (P2 x)} (l : list A) :
  (∀ x, x ∈ l -> P1 x ↔ P2 x) -> filter P1 l = filter P2 l.
Proof.
  induction l as [|x l IH]; intros Hext; [done|].
  rewrite !filter_cons.
  assert (P1 x ↔ P2 x) as Hx by (apply Hext; set_solver).
  rewrite IH by (intros y Hy; apply Hext; set_solver).
  destruct (decide (P1 x)), (decide (P2 x)); tauto.
Qed.

Section GreedyPass.

Variable getTime : string -> option Z.
Variable threshold : Q.

Let dup (a b : NormalizedHackathon) : bool := isDuplicate getTime a b (Some threshold).

Implicit Types (P A : gset nat) (items js : list (nat * NormalizedHackathon)).

Lemma innerLoop_filter hi js P added D :
  NoDup js.*1 ->
  (∀ j, j ∈ js.*1 -> j ∉ added) ->
  let F := filter (λ jh, (jh.1 ∉ P) ∧ (dup hi jh.2 = true)) js in
  innerLoop getTime threshold hi js (added ∪ P) D
  = (list_to_set F.*1 ∪ (added ∪ P), D ++ F.*2).
Proof.
  revert added D. induction js as [|[j hj] js IH]; intros added D Hnd Hadd; simpl.
  - rewrite app_nil_r. f_equal. set_solver.
  - apply NoDup_cons in Hnd as [Hj Hnd].
    assert (j ∉ added) as Hja by (apply Hadd; set_solver).
    rewrite filter_cons. simpl.
    destruct (decide (j ∈ added ∪ P)) as [Hin|Hnin].
    + rewrite decide_False by (intros [? _]; set_solver).
      apply IH; [done|]. intros j' Hj'. apply Hadd. set_solver.
    + fold (dup hi hj). destruct (dup hi hj) eqn:Hdup.
      * rewrite decide_True by (split; [set_solver|done]).
        replace ({[j]} ∪ (added ∪ P)) with (({[j]} ∪ added) ∪ P) by set_solver.
        rewrite IH; [|done|].
        -- simpl. rewrite <- app_assoc. f_equal. set_solver.
        -- intros j' Hj'. specialize (Hadd j'). set_solver.
      * rewrite decide_False by (intros [_ ?]; done).
        apply IH; [done|]. intros j' Hj'. apply Hadd. set_solver.
Qed.

Lemma outerLoop_greedy items P A Gs :
  NoDup items.*1 ->
  (∀ i, i ∈ items.*1 -> i ∈ P ↔ i ∈ A) ->
  outerLoop getTime threshold items P Gs
  = Gs ++ (forgetPositions <$> greedyGroups dup A items).
Proof.
  revert P A Gs. induction items as [|[i hi] rest IH]; intros P A Gs Hnd HPA; simpl.
  - by rewrite app_nil_r.
  - apply NoDup_cons in Hnd as [Hi Hnd].
    assert (i ∈ P ↔ i ∈ A) as HiPA by (apply HPA; set_solver).
    destruct (decide (i ∈ P)) as [HiP|HiP].
    + rewrite decide_True by tauto. apply IH; [done|].
      intros k Hk. apply HPA. set_solver.
    + rewrite decide_False by tauto.
      pose proof (innerLoop_filter hi rest P ∅ [] Hnd) as Hinner.
      rewrite (left_id_L ∅ (∪)) in Hinner. rewrite Hinner by set_solver. clear Hinner.
      simpl.
      assert (filter (λ jh, (jh.1 ∉ P) ∧ (dup hi jh.2 = true)) rest
              = filter (λ jh, (jh.1 ∉ A) ∧ (dup hi jh.2 = true)) rest) as ->.
      { apply filter_ext_elem. intros [k hk] Hk. simpl.
        assert (k ∈ rest.*1) as Hk' by (apply list_elem_of_fmap; by exists (k, hk)).
        specialize (HPA k). set_solver. }
      set (F := filter (λ jh, (jh.1 ∉ A) ∧ (dup hi jh.2 = true)) rest).
      assert (∀ k, k ∈ rest.*1 ->
                k ∈ {[i]} ∪ (list_to_set F.*1 ∪ P) ↔ k ∈ list_to_set F.*1 ∪ A) as HPA'.
      { intros k Hk. specialize (HPA k). set_solver. }
      destruct F as [|f F'] eqn:HF.
      * simpl. by apply IH.
      * rewrite length_fmap. simpl length. simpl Nat.ltb. cbv iota.
        rewrite (IH _ (list_to_set (f :: F').*1 ∪ A)); [|done|done].
        change (0 <? S (length F'))%nat with true. cbv iota.
        by rewrite <- app_assoc.
Qed.

End GreedyPass.

Section GreedyGroups.

Variable dup : NormalizedHackathon -> NormalizedHackathon -> bool.

Implicit Types (A : gset nat) (records later : list (nat * NormalizedHackathon)).

Lemma greedyGroups_cons_unassigned A i hi later :
  i ∉ A ->
  let dups := filter (λ jh, (jh.1 ∉ A) ∧ (dup hi jh.2 = true)) later in
  let rest := greedyGroups dup (list_to_set dups.*1 ∪ A) later in
  members (greedyGroups dup A ((i, hi) :: later)) ≡ₚ
    (if decide (dups = []) then [] else i :: dups.*1) ++ members rest
  ∧ assignedAsDuplicate (greedyGroups dup A ((i, hi) :: later))
    = dups.*1 ++ assignedAsDuplicate rest.
Proof.
  intros Hi dups rest. cbn [greedyGroups]. rewrite decide_False by done.
  fold dups. fold rest. destruct dups as [|d dups'] eqn:Hd.
  - by rewrite decide_True.
  - by rewrite decide_False.
Qed.

(** The positions in the groups are positions of the input that were not
    assigned before, and none occurs twice. *)
Lemma greedyGroups_members A records :
  NoDup records.*1 ->
  NoDup (members (greedyGroups dup A records))
  ∧ ∀ x, x ∈ members (greedyGroups dup A records) -> x ∈ records.*1 ∧ x ∉ A.
Proof.
  revert A. induction records as [|[i hi] later IH]; intros A Hnd.
  - split; [constructor|]. intros x Hx. by apply elem_of_nil in Hx.
  - rewrite fmap_cons in Hnd. apply NoDup_cons in Hnd as [Hi Hnd]. simpl in Hi.
    destruct (decide (i ∈ A)) as [HiA|HiA].
    + cbn [greedyGroups]. rewrite decide_True by done.
      destruct (IH A Hnd) as [IH1 IH2]. split; [done|].
      intros x Hx. destruct (IH2 x Hx). set_solver.
    + destruct (greedyGroups_cons_unassigned A i hi later HiA) as [Hm _].
      cbv zeta in Hm.
      set (dups := filter (λ jh, (jh.1 ∉ A) ∧ (dup hi jh.2 = true)) later) in *.
      destruct (IH (list_to_set dups.*1 ∪ A) Hnd) as [IH1 IH2].
      assert (NoDup dups.*1) as Hdn.
      { eapply sublist_NoDup; [exact Hnd|]. apply fmap_sublist, sublist_filter. }
      assert (∀ x, x ∈ dups.*1 -> x ∈ later.*1 ∧ x ∉ A) as Hdin.
      { intros x [[k hk] [-> Hk]]%list_elem_of_fmap.
        apply list_elem_of_filter in Hk as [[Hk1 _] Hk2]. split; [|done].
        apply list_elem_of_fmap. by exists (k, hk). }
      split.
      * rewrite Hm. apply NoDup_app. split; [|split; [|done]].
        -- case_decide; [constructor|]. apply NoDup_cons. split; [|done].
           intros Hx. apply Hdin in Hx. tauto.
        -- intros x Hx Hx'. apply IH2 in Hx' as [Hx1 Hx2].
           case_decide; [by apply elem_of_nil in Hx|].
           apply elem_of_cons in Hx as [->|Hx]; [done|]. set_solver.
      * intros x Hx. rewrite Hm in Hx. apply elem_of_app in Hx as [Hx|Hx].
        -- case_decide; [by apply elem_of_nil in Hx|].
           apply elem_of_cons in Hx as [->|Hx]; [set_solver|].
           apply Hdin in Hx. set_solver.
        -- apply IH2 in Hx. set_solver.
Qed.

(** Of two records that are never assigned as duplicates, the later one is
    not a duplicate of the earlier one. *)
Lemma greedyGroups_survivors A records p q i hi k hk :
  records !! p = Some (i, hi) -> records !! q = Some (k, hk) -> p < q ->
  i ∉ A -> i ∉ assignedAsDuplicate (greedyGroups dup A records) ->
  k ∉ A -> k ∉ assignedAsDuplicate (greedyGroups dup A records) ->
  dup hi hk = false.
Proof.
  revert A p q. induction records as [|[i0 h0] later IH]; intros A p q Hp Hq Hpq;
    [done|].
  destruct q as [|q]; [lia|]. simpl in Hq.
  destruct (decide (i0 ∈ A)) as [Hi0|Hi0].
  - cbn [greedyGroups]. rewrite decide_True by done.
    destruct p as [|p]; simpl in Hp.
    + injection Hp as -> ->. tauto.
    + apply (IH A p q); [done|done|lia].
  - destruct (greedyGroups_cons_unassigned A i0 h0 later Hi0) as [_ ->].
    set (dups := filter (λ jh, (jh.1 ∉ A) ∧ (dup h0 jh.2 = true)) later).
    intros HiA Hi HkA Hk.
    rewrite elem_of_app in Hi, Hk.
    destruct p as [|p]; simpl in Hp.
    + injection Hp as -> ->.
      destruct (dup hi hk) eqn:Hdup; [|done]. exfalso. apply Hk. left.
      apply list_elem_of_fmap. exists (k, hk). split; [done|].
      apply list_elem_of_filter. split; [done|].
      by eapply list_elem_of_lookup_2.
    + apply (IH (list_to_set dups.*1 ∪ A) p q); [done|done|lia|..]; set_solver.
Qed.

End GreedyGroups.

Lemma findDuplicates_greedy_groups (getTime : string -> option Z)
    (hackathons : list NormalizedHackathon) (threshold : option Q) :
  let dup := λ a b, isDuplicate getTime a b (Some (default (85 # 100) threshold)) in
  findDuplicates getTime hackathons threshold
  = forgetPositions <$> greedyGroups dup ∅ (indexedFrom 0 hackathons)
  ∧ NoDup (members (greedyGroups dup ∅ (indexedFrom 0 hackathons))).
Proof.
  intros dup. split.
  - unfold findDuplicates.
    rewrite (outerLoop_greedy getTime _ _ ∅ ∅ []); [done| |done].
    apply indexedFrom_NoDup.
  - apply greedyGroups_members, indexedFrom_NoDup.
Qed.

(** C3. [findDuplicates] is the single greedy pass: the records are visited
    in input order, a record already assigned to a group is skipped, and every
    other record becomes the primary of the later unassigned records that
    score at least the threshold against it; no position occurs in two of the
    returned groups, and two distinct records that survive the pass (are never
    assigned as a duplicate) are not duplicates of each other. *)
Theorem findDuplicates_greedy_pass (getTime : string -> option Z)
    (hackathons : list NormalizedHackathon) (threshold : option Q) :
  let dup := λ a b, isDuplicate getTime a b (Some (default (85 # 100) threshold)) in
  let G := greedyGroups dup ∅ (indexedFrom 0 hackathons) in
  findDuplicates getTime hackathons threshold = forgetPositions <$> G
  ∧ NoDup (members G)
  ∧ (∀ i k hi hk,
       hackathons !! i = Some hi -> hackathons !! k = Some hk -> i ≠ k ->
       i ∉ assignedAsDuplicate G -> k ∉ assignedAsDuplicate G ->
       dup hi hk = false ∧ dup hk hi = false).
Proof.
  intros dup G. split; [|split].
  - unfold findDuplicates.
    rewrite (outerLoop_greedy getTime _ _ ∅ ∅ []); [done| |done].
    apply indexedFrom_NoDup.
  - apply greedyGroups_members, indexedFrom_NoDup.
  - intros i k hi hk Hi Hk Hne HiG HkG.
    assert (indexedFrom 0 hackathons !! i = Some (i, hi)) as Hi'
      by (by rewrite indexedFrom_lookup, Hi).
    assert (indexedFrom 0 hackathons !! k = Some (k, hk)) as Hk'
      by (by rewrite indexedFrom_lookup, Hk).
    destruct (Nat.lt_total i k) as [Hlt|[->|Hlt]]; [|done|].
    + pose proof (greedyGroups_survivors dup ∅ _ i k i hi k hk Hi' Hk' Hlt) as H.
      split; [|unfold dup; rewrite isDuplicate_sym]; apply H; set_solver.
    + pose proof (greedyGroups_survivors dup ∅ _ k i k hk i hi Hk' Hi' Hlt) as H.
      split; [unfold dup; rewrite isDuplicate_sym|]; apply H; set_solver.
Qed.

(* ------------------------------------------------------------------ *)
(** ** Merging a duplicate group *)
(* ------------------------------------------------------------------ *)

Lemma indexOf_sourcePriority_nonneg s : (0 <= indexOf sourcePriority s <= 2)%Z.
Proof. destruct s; vm_compute; split; discriminate. Qed.

(** The base record is a member of the group whose source ranks first. *)
Lemma mergeDuplicates_base original duplicates :
  let best := foldl pickBest original duplicates in
  best ∈ original :: duplicates
  ∧ ∀ e, e ∈ original :: duplicates ->
      (indexOf sourcePriority (source best) <= indexOf sourcePriority (source e))%Z.
Proof.
  revert original. induction duplicates as [|d ds IH]; intros original; cbn [foldl].
  - split; [set_solver|]. intros e ->%list_elem_of_singleton. lia.
  - destruct (IH (pickBest original d)) as [IH1 IH2]. split.
    + apply elem_of_cons in IH1 as [->|IH1]; [|set_solver].
      unfold pickBest. case_match; set_solver.
    + intros e He.
      assert (indexOf sourcePriority (source (pickBest original d))
              <= indexOf sourcePriority (source original)
              ∧ indexOf sourcePriority (source (pickBest original d))
              <= indexOf sourcePriority (source d))%Z as [Ho Hd].
      { unfold pickBest.
        set (po := indexOf sourcePriority (source original)).
        pose proof (indexOf_sourcePriority_nonneg (source d)) as Hd0.
        set (pd := indexOf sourcePriority (source d)) in *.
        destruct (Z.ltb_spec pd po) as [Hlt|Hge]; cbn [andb]; [|fold po; lia].
        destruct (Z.eqb_spec pd (-1)) as [Heq|Hne]; cbn [negb];
          fold po; fold pd; lia. }
      pose proof (IH2 (pickBest original d) ltac:(set_solver)) as Hb.
      apply elem_of_cons in He as [->|He]; [lia|].
      apply elem_of_cons in He as [->|He]; [lia|].
      apply IH2. set_solver.
Qed.

(** The fields the merge does not touch are the base's. *)
Lemma mergeDuplicates_base_fields original duplicates :
  let best := foldl pickBest original duplicates in
  let merged := mergeDuplicates original duplicates in
  title merged = title best ∧ start_date merged = start_date best
  ∧ end_date merged = end_date best ∧ location merged = location best
  ∧ is_online merged = is_online best ∧ source merged = source best.
Proof. done. Qed.

(** The merged description is the first one in the group that is longer than
    the base's, when there is one. *)
Lemma mergeDuplicates_description original duplicates :
  let best := foldl pickBest original duplicates in
  description (mergeDuplicates original duplicates) =
  match List.find (λ e, Js.truthy (description e)
                        && (Js.lengthOr0 (description best)
                            <? Js.lengthOr0 (description e))%nat)
                  (original :: duplicates) with
  | Some e => description e
  | None => description best
  end.
Proof.
  intros best. unfold mergeDuplicates. cbn [description]. fold best.
  destruct (List.find _ _) as [e|] eqn:Hfind; [|done].
  apply find_some in Hfind as [_ [He _]%andb_prop]. simpl.
  unfold Js.or_else. by rewrite He.
Qed.

(** C2. In the group [mergeEx_original; mergeEx_second; mergeEx_third] the
    base record is the MLH one and the longest description is the third
    record's, yet the merged record carries the second record's description:
    the first one that is longer than the base's. *)
Theorem mergeDuplicates_description_not_longest :
  let merged := mergeDuplicates mergeEx_original [mergeEx_second; mergeEx_third] in
  source merged = mlh
  ∧ description merged = description mergeEx_second
  ∧ Js.lengthOr0 (description mergeEx_second) < Js.lengthOr0 (description mergeEx_third)
  ∧ description merged ≠ description mergeEx_third.
Proof.
  cbv zeta. split; [reflexivity|]. split; [reflexivity|].
  split; [simpl; lia|discriminate].
Qed.

Example date_parse_ex1 : Date.parse 0 "2024-10-15T00:00:00.000Z" = Some 1728950400000%Z.
Proof. reflexivity. Qed.
Example date_parse_ex2 : Date.parse 120 "Oct 15, 2024" = Some (1728950400000 - 7200000)%Z.
Proof. reflexivity. Qed.
Example date_iso_ex : Date.toISOString 1728950400123 = "2024-10-15T00:00:00.123Z".
Proof. reflexivity. Qed.
Example date_parse_ex3 : Date.parse 0 "2024-10-15" = Some 1728950400000%Z.
Proof. reflexivity. Qed.
Example date_parse_ex4 : Date.parse 0 "garbage" = None.
Proof. reflexivity. Qed.
Example date_parse_ex5 : Date.parse 60 "2024-10-15T00:00:00+01:00" = Some (1728950400000 - 3600000)%Z.
Proof. reflexivity. Qed.

(* ------------------------------------------------------------------ *)
(** ** Validation of candidates *)
(* ------------------------------------------------------------------ *)

(** On candidates whose timestamps are dates, validation succeeds exactly
    when the required fields are present and the start is before the end. *)
Lemma validateHackathon_iff getTime source_id (d : PartialHackathon) :
  is_Some (p_start_date d ≫= getTime) -> is_Some (p_end_date d ≫= getTime) ->
  BaseAdapter.validateHackathon getTime source_id d = Return tt
  ↔ requiredPresent d ∧ startBeforeEnd getTime d.
Proof.
  intros [ts Hs] [te He].
  unfold BaseAdapter.validateHackathon, requiredPresent, startBeforeEnd.
  rewrite Hs, He. cbn [BaseAdapter.dateGe].
  destruct (Js.truthy (p_title d)), (Js.truthy (p_start_date d)),
    (Js.truthy (p_end_date d)), (Js.truthy (p_location d)),
    (p_source d) as [src|]; cbn;
    try (split; [discriminate|]; intros [(? & ? & ? & ? & Hsrc) _];
         first [discriminate | by destruct Hsrc]).
  destruct (Z.leb_spec te ts) as [Hle|Hlt].
  - split; [discriminate|]. intros [_ (ts' & te' & [= <-] & [= <-] & Hlt)]. lia.
  - split; [|done]. intros _. split; [by eauto 10|]. by exists ts, te.
Qed.

(** A failed validation throws a [ScrapingError] that names the adapter. *)
Lemma validateHackathon_throws getTime source_id (d : PartialHackathon) e :
  BaseAdapter.validateHackathon getTime source_id d = Throw e ->
  se_source_id e = source_id ∧ se_url e = None.
Proof.
  unfold BaseAdapter.validateHackathon. repeat case_match; intros [= <-]; done.
Qed.

(** C4. The Devpost adapter returns the JSON-LD event [backwardsEvent], whose
    start (17 October) is after its end (15 October): the structured-data path
    builds the record without calling [validateHackathon], which rejects this
    very record. *)
Theorem parseStructuredEvent_returns_unvalidated :
  ∃ h ts te,
    DevpostAdapter.extractStructuredData (Date.parse 0) [backwardsEvent] = [h]
    ∧ Date.parse 0 (start_date h) = Some ts ∧ Date.parse 0 (end_date h) = Some te
    ∧ (te < ts)%Z
    ∧ BaseAdapter.validateHackathon (Date.parse 0) "devpost" (toPartial h)
      = Throw (mkScrapingError "Start date must be before end date" "devpost" None None).
Proof.
  exists {| title := "Backwards Hack"; description := None;
            start_date := "2024-10-17T00:00:00.000Z";
            end_date := "2024-10-15T00:00:00.000Z";
            registration_deadline := None; location := "Online"; is_online := true;
            website_url := Some "https://devpost.com/hackathons/backwards";
            registration_url := None; source := devpost |},
         1729123200000%Z, 1728950400000%Z.
  repeat split; vm_compute; reflexivity.
Qed.

(* ------------------------------------------------------------------ *)
(** ** Retries of the HTTP client *)
(* ------------------------------------------------------------------ *)

Section Retries.

Variable network : string -> nat -> FetchOutcome.
Variable this : HttpClient.

Lemma makeRequest_step url source_id attempt st :
  makeRequest network this url source_id attempt st =
  match tryFetch network url attempt st with
  | (Return text, st1) => (Return text, st1)
  | (Throw error, st1) =>
      if decide (attempt < maxRetries this)%Z
      then makeRequest network this url source_id (attempt + 1)
             (sleep (retryDelay this * 2 ^ (attempt - 1)) st1)
      else (Throw (mkScrapingError
                     ("Failed to fetch " +:+ url +:+ " after "
                      +:+ Js.showZ (maxRetries this) +:+ " attempts")
                     source_id (Some url) (Some error)), st1)
  end.
Proof.
  simp makeRequest.
  destruct (tryFetch network url attempt st) as [[text|error] st1]; simpl; [done|].
  destruct (decide (attempt < maxRetries this)%Z); done.
Qed.

Lemma tryFetch_failure url attempt st cause :
  failureOf (network url (fetchCount st)) = Some cause ->
  tryFetch network url attempt st =
  (Throw cause, {| fetchCount := S (fetchCount st);
                   events := events st ++ [EvFetch url attempt] |}).
Proof.
  unfold tryFetch, failureOf.
  destruct (network url (fetchCount st)) as [[|] status statusText [text|e]|e];
    simpl; congruence.
Qed.

Lemma makeRequest_persistent_failure url source_id (r : nat) attempt st :
  (∀ n, is_Some (failureOf (network url n))) ->
  (attempt <= maxRetries this)%Z -> Z.to_nat (maxRetries this - attempt) = r ->
  ∃ cause,
    failureOf (network url (fetchCount st + r)) = Some cause
    ∧ makeRequest network this url source_id attempt st =
      (Throw (mkScrapingError
                ("Failed to fetch " +:+ url +:+ " after "
                 +:+ Js.showZ (maxRetries this) +:+ " attempts")
                source_id (Some url) (Some cause)),
       {| fetchCount := fetchCount st + S r;
          events := events st ++ retrySchedule url (retryDelay this) attempt (S r) |}).
Proof.
  intros Hfail. revert attempt st.
  induction r as [|r IH]; intros attempt st Hle Hr.
  - destruct (Hfail (fetchCount st)) as [cause Hc]. exists cause.
    rewrite Nat.add_0_r. split; [done|].
    rewrite makeRequest_step, (tryFetch_failure _ _ _ _ Hc).
    rewrite decide_False by lia. simpl. by rewrite Nat.add_1_r.
  - destruct (Hfail (fetchCount st)) as [cause0 Hc0].
    rewrite makeRequest_step, (tryFetch_failure _ _ _ _ Hc0).
    rewrite decide_True by lia.
    edestruct (IH (attempt + 1)%Z) as (cause & Hc & ->); [lia|lia|].
    exists cause. unfold sleep in *. cbn [fetchCount events] in *. split.
    + rewrite <- Hc. do 2 f_equal. lia.
    + f_equal. f_equal; [lia|].
      rewrite <- !app_assoc. by f_equal.
Qed.

End Retries.

Lemma newHttpClient_maxRetries options :
  (∀ m, opt_maxRetries options = Some m -> (0 <= m)%Z) ->
  (1 <= maxRetries (newHttpClient options))%Z.
Proof.
  intros H. unfold newHttpClient, Js.numberOr. simpl.
  destruct (opt_maxRetries options) as [m|]; [|lia].
  specialize (H m eq_refl). destruct (Z.eqb_spec m 0); lia.
Qed.



(* ------------------------------------------------------------------ *)
(** ** robots.txt compliance *)
(* ------------------------------------------------------------------ *)

(** With the rule alone the path is forbidden ... *)
Lemma robotsMinimal_forbidden :
  isAllowedByRobotsTxt (Some robotsMinimal) "HackathonSnifferBot" "/hackathons" = false.
Proof. reflexivity. Qed.

(** ... and an adapter one of whose paths is forbidden is aborted before it
    scrapes: the only requests are those for robots.txt, and the store is
    untouched. *)
Lemma runAdapterIngestion_aborts {Store} processEvent network httpClient
    source_id name baseUrl scrapingPaths scrape (store : Store) st robotsContent st1 path :
  checkRobotsTxt network httpClient baseUrl st = (Some robotsContent, st1) ->
  Js.truthy (Some robotsContent) = true ->
  path ∈ scrapingPaths ->
  isAllowedByRobotsTxt (Some robotsContent) "HackathonSnifferBot" path = false ->
  runAdapterIngestion Store processEvent
    (baseAdapter network httpClient source_id name baseUrl scrapingPaths scrape) store st
  = ({| r_source_id := source_id; events_found := 0; events_processed := 0;
        events_created := 0; events_updated := 0;
        errors := ["Adapter error: " +:+ name
                   +:+ " scraping is not compliant with robots.txt"] |},
     store, st1).
Proof.
  intros Hcheck Htruthy Hpath Hdis.
  unfold runAdapterIngestion, baseAdapter, isRobotsTxtCompliant. cbn [a_isRobotsTxtCompliant].
  rewrite Hcheck, Htruthy. cbn [negb].
  assert (forallb (λ p, isAllowedByRobotsTxt (Some robotsContent) "HackathonSnifferBot" p)
            scrapingPaths = false) as ->.
  { apply not_true_is_false. intros Hall. rewrite forallb_forall in Hall.
    apply list_elem_of_In in Hpath. specialize (Hall path Hpath). congruence. }
  reflexivity.
Qed.

Example devpost_aborted_on_robotsMinimal :
  runAdapterIngestion unit noProcessing (devpostOn (siteWithRobots robotsMinimal)) tt idleNet
  = ({| r_source_id := "devpost"; events_found := 0; events_processed := 0;
        events_created := 0; events_updated := 0;
        errors := ["Adapter error: Devpost scraping is not compliant with robots.txt"] |},
     tt,
     {| fetchCount := 1; events := [EvFetch "https://devpost.com/robots.txt" 1] |}).
Proof. reflexivity. Qed.

(** C6. A robots.txt that has [Disallow: /hackathons] under [User-agent: *]
    and then a block for another crawler: the [User-agent] line of the later
    block empties the collected rules, the path [/hackathons] is evaluated as
    allowed, and the Devpost adapter goes on to fetch it. *)
Theorem robots_later_block_discards_rules :
  isAllowedByRobotsTxt (Some robotsTwoBlocks) "HackathonSnifferBot" "/hackathons" = true
  ∧ runAdapterIngestion unit noProcessing (devpostOn (siteWithRobots robotsTwoBlocks))
      tt idleNet
    = ({| r_source_id := "devpost"; events_found := 0; events_processed := 0;
          events_created := 0; events_updated := 0; errors := [] |},
       tt,
       {| fetchCount := 2;
          events := [EvFetch "https://devpost.com/robots.txt" 1;
                     EvFetch "https://devpost.com/hackathons" 1] |}).
Proof. split; reflexivity. Qed.

(* ------------------------------------------------------------------ *)
(** ** The run state of the scheduler *)
(* ------------------------------------------------------------------ *)

Lemma ascending_snoc ws r :
  ascending ws -> (∀ w, w ∈ ws -> w <= r) -> ascending (ws ++ [r]).
Proof.
  intros Hasc Hle i j a b Hij Hi Hj.
  assert (i < length ws) as Hilen.
  { apply lookup_lt_Some in Hj. rewrite length_app in Hj. simpl in Hj. lia. }
  rewrite lookup_app_l in Hi by done.
  destruct (decide (j < length ws)) as [Hjlen|Hjlen].
  - rewrite lookup_app_l in Hj by done. exact (Hasc i j a b Hij Hi Hj).
  - rewrite lookup_app_r in Hj by lia.
    destruct (j - length ws) as [|n]; simpl in Hj; [|done].
    injection Hj as <-. apply Hle. by eapply list_elem_of_lookup_2.
Qed.

Lemma ascending_notInterleaved ws : ascending ws -> notInterleaved ws.
Proof.
  intros Hasc i j k r [Hij Hjk] Hi Hk.
  destruct (ws !! j) as [x|] eqn:Hj.
  - f_equal. pose proof (Hasc i j r x Hij Hi Hj). pose proof (Hasc j k x r Hjk Hj Hk). lia.
  - apply lookup_ge_None in Hj. apply lookup_lt_Some in Hk. lia.
Qed.

Lemma schedulerInv_new : schedulerInv newScheduler.
Proof.
  split; simpl.
  - lia.
  - split; done.
  - intros r Hr. by apply elem_of_nil in Hr.
  - intros w Hw. by apply elem_of_nil in Hw.
  - intros w r Hw. by apply elem_of_nil in Hw.
  - intros i j a b _ Hi. done.
Qed.

Lemma beginRun_inv this :
  schedulerInv this -> isRunning this = false -> schedulerInv (beginRun this).1.
Proof.
  intros [H1 H2 H3 H4 H5 H6] Hidle.
  assert (inFlight this = []) as Hnil.
  { destruct (inFlight this) eqn:E; [done|].
    assert (isRunning this = true) by (apply H2; done). congruence. }
  split; simpl; rewrite ?Hnil; simpl.
  - lia.
  - split; done.
  - intros r ->%list_elem_of_singleton. lia.
  - intros w Hw. specialize (H4 w Hw). lia.
  - intros w r Hw ->%list_elem_of_singleton. specialize (H4 w Hw). lia.
  - done.
Qed.

Lemma step_inv this ev : schedulerInv this -> schedulerInv (step this ev).1.
Proof.
  intros Hinv. destruct ev as [| |run|run]; cbn [step].
  - unfold cronCallback, runIngestion.
    destruct (isRunning this) eqn:Hrun; [|by apply beginRun_inv].
    destruct Hinv as [H1 H2 H3 H4 H5 H6]. rewrite Hrun in H2.
    split; cbn [fst isRunning inFlight started storeWrites]; done.
  - unfold runIngestion.
    destruct (isRunning this) eqn:Hrun; [done|by apply beginRun_inv].
  - case_bool_decide as Hin; [|done].
    destruct Hinv as [H1 H2 H3 H4 H5 H6].
    split; cbn [fst isRunning inFlight started storeWrites]; try done.
    + intros w [Hw| ->%list_elem_of_singleton]%elem_of_app; auto.
    + intros w r [Hw| ->%list_elem_of_singleton]%elem_of_app Hr; [auto|].
      destruct (inFlight this) as [|x [|y l]]; simpl in H1;
        [by apply elem_of_nil in Hr| |lia].
      apply list_elem_of_singleton in Hin, Hr. lia.
    + apply ascending_snoc; [done|]. intros w Hw. by apply H5.
  - case_bool_decide as Hin; [|done].
    destruct Hinv as [H1 H2 H3 H4 H5 H6].
    assert (filter (λ r, r ≠ run) (inFlight this) = []) as Hnil.
    { destruct (inFlight this) as [|x [|y l]]; simpl in H1;
        [done| |lia].
      apply list_elem_of_singleton in Hin as ->.
      rewrite filter_cons. rewrite decide_False by tauto. done. }
    split; cbn [fst isRunning inFlight started storeWrites]; rewrite ?Hnil; try done.
    + simpl. lia.
    + intros r Hr. by apply elem_of_nil in Hr.
    + intros w r _ Hr. by apply elem_of_nil in Hr.
Qed.

Lemma after_snoc evs ev : after (evs ++ [ev]) = (step (after evs) ev).1.
Proof. unfold after. by rewrite foldl_app. Qed.

Lemma after_inv evs : schedulerInv (after evs).
Proof.
  induction evs as [|ev evs IH] using rev_ind.
  - apply schedulerInv_new.
  - rewrite after_snoc. by apply step_inv.
Qed.

(** A call of [runIngestion] during a run is not logged and skipped: it
    throws, and the log stays as it is. *)
Lemma runIngestion_while_running_not_logged :
  ¬ loggedAndSkipped (after [RunIngestionCall]) RunIngestionCall.
Proof. unfold loggedAndSkipped. simpl. discriminate. Qed.

(** C7 (amended). After any sequence of timer ticks, [runIngestion] calls,
    store writes and settlements, at most one run is in flight, and one is in
    flight exactly when [isRunning] is set; the store writes of two runs never
    interleave; and while a run is in flight a timer tick is logged and
    skipped, a [runIngestion] call throws "Ingestion is already running",
    and neither changes the run state, starts a run or leaves anything behind
    that would start one later. *)
Theorem scheduler_single_run (evs : list SchedulerEvent) :
  let this := after evs in
  length (inFlight this) <= 1
  ∧ (isRunning this = true ↔ inFlight this ≠ [])
  ∧ notInterleaved (storeWrites this)
  ∧ (isRunning this = true ->
       loggedAndSkipped this CronTick
       ∧ step this RunIngestionCall = (this, Threw "Ingestion is already running")).
Proof.
  intros this. destruct (after_inv evs) as [H1 H2 _ _ _ H6]. fold this in H1, H2, H6.
  split; [done|]. split; [done|]. split; [by apply ascending_notInterleaved|].
  intros Hrun. unfold loggedAndSkipped. simpl.
  unfold cronCallback, runIngestion. by rewrite Hrun.
Qed.

Lemma scheduler_single_run_witness :
  let this := after [CronTick; StoreWrite 0] in
  isRunning this = true
  ∧ loggedAndSkipped this CronTick
  ∧ step this RunIngestionCall = (this, Threw "Ingestion is already running").
Proof.
  split; [reflexivity|].
  apply (scheduler_single_run [CronTick; StoreWrite 0]). reflexivity.
Defined.

(* ------------------------------------------------------------------ *)
(** ** Date ranges *)
(* ------------------------------------------------------------------ *)

(** Whatever the [Date] parser and the current year, the Devpost parser reads
    "Oct 15 - 17, 2024" as the dates "Oct 15, 2024" and "Oct 17, 2024" ... *)
Lemma devpost_day_range getTime currentYear :
  DevpostAdapter.parseDateRange getTime currentYear "Oct 15 - 17, 2024"
  = rangeInYear getTime "devpost" "Oct" "15" "Oct" "17" "2024".
Proof. reflexivity. Qed.

(** ... the MLH parser reads "Oct 15-17, 2024" so ... *)
Lemma mlh_day_range getTime currentYear :
  MLHAdapter.parseDateRange getTime currentYear "Oct 15-17, 2024"
  = rangeInYear getTime "mlh" "Oct" "15" "Oct" "17" "2024".
Proof. reflexivity. Qed.

(** ... and does not recognise the range with spaces around the dash. *)
Lemma mlh_spaced_day_range_unparsed :
  MLHAdapter.parseDateRange (Date.parse 0) 2026 "Oct 15 - 17, 2024" = None.
Proof. reflexivity. Qed.

(** The adapter's name only shows in the error that is dropped. *)
Lemma isoOf_source getTime id1 id2 text :
  isoOf getTime id1 text = isoOf getTime id2 text.
Proof.
  unfold isoOf, BaseAdapter.normalizeDate.
  destruct (getTime text) as [t|]; [|done]. simpl.
  by destruct (getTime (Date.toISOString t)).
Qed.

Lemma rangeInYear_source getTime id1 id2 m1 d1 m2 d2 y :
  rangeInYear getTime id1 m1 d1 m2 d2 y = rangeInYear getTime id2 m1 d1 m2 d2 y.
Proof. unfold rangeInYear. by rewrite !(isoOf_source getTime id1 id2). Qed.

Lemma zoneOffsets_elem tz : (-720 <= tz <= 840)%Z -> tz ∈ zoneOffsets.
Proof.
  intros H. unfold zoneOffsets. apply list_elem_of_fmap.
  exists (Z.to_nat (tz + 720)). split; [lia|].
  apply elem_of_seq. lia.
Qed.

Lemma localDatesAre_all_zones :
  forallb (λ tz, localDatesAre tz "Oct 15 - 17, 2024" (2024, 10, 15) (2024, 10, 17))%Z
          zoneOffsets = true.
Proof. vm_compute. reflexivity. Qed.

Lemma parseDateRangeWith_usesCurrentYear getTime currentYear source_id pattern1 pattern2 :
  usesCurrentYear (parseDateRangeWith getTime currentYear source_id pattern1 pattern2)
    pattern1 pattern2 getTime source_id currentYear.
Proof.
  intros dateText cleanedText Hyear. unfold parseDateRangeWith. fold cleanedText.
  rewrite Hyear.
  destruct (RegExp.exec pattern1 cleanedText) as [m|].
  - intros ->. reflexivity.
  - destruct (RegExp.exec pattern2 cleanedText) as [m|]; [|done].
    intros -> ->. reflexivity.
Qed.

Lemma timestampsAre_all_zones :
  forallb (λ tz, timestampsAre tz "Oct 15 - 17, 2024"
                   (localMidnight tz 2024 10 15) (localMidnight tz 2024 10 17))%Z
          zoneOffsets = true.
Proof. vm_compute. reflexivity. Qed.

(** C8 (amended). On a host whose local time is [tz] minutes ahead of UTC,
    the Devpost adapter maps "Oct 15 - 17, 2024" to the ISO timestamps of
    local midnight of 15 and of 17 October 2024 (the instants [tz] minutes
    before midnight UTC of these days, whose local calendar dates are these
    days), which on a UTC host are 2024-10-15T00:00:00.000Z and
    2024-10-17T00:00:00.000Z; the MLH adapter maps "Oct 15-17, 2024", without
    spaces around the dash, to the same timestamps; and in both adapters a
    date text without a year has both its endpoints taken in the current
    year. *)
Theorem parseDateRange_day_range (tz currentYear : Z) :
  (-720 <= tz <= 840)%Z ->
  (∃ r ts te,
     DevpostAdapter.parseDateRange (Date.parse tz) currentYear "Oct 15 - 17, 2024" = Some r
     ∧ MLHAdapter.parseDateRange (Date.parse tz) currentYear "Oct 15-17, 2024" = Some r
     ∧ ts = localMidnight tz 2024 10 15 ∧ te = localMidnight tz 2024 10 17
     ∧ dr_start_date r = Date.toISOString ts ∧ dr_end_date r = Date.toISOString te
     ∧ Date.parse tz (dr_start_date r) = Some ts ∧ Date.parse tz (dr_end_date r) = Some te
     ∧ Date.civil tz ts = (2024, 10, 15)%Z ∧ Date.civil tz te = (2024, 10, 17)%Z)
  ∧ DevpostAdapter.parseDateRange (Date.parse 0) currentYear "Oct 15 - 17, 2024"
    = Some {| dr_start_date := "2024-10-15T00:00:00.000Z";
              dr_end_date := "2024-10-17T00:00:00.000Z" |}
  ∧ (∀ getTime,
       usesCurrentYear (DevpostAdapter.parseDateRange getTime currentYear)
         DatePatterns.dayRangeSpaced DatePatterns.twoDates getTime "devpost" currentYear
       ∧ usesCurrentYear (MLHAdapter.parseDateRange getTime currentYear)
           DatePatterns.dayRangeTight DatePatterns.twoDates getTime "mlh" currentYear).
Proof.
  intros Htz. split; [|split].
  - pose proof localDatesAre_all_zones as Hall. rewrite forallb_forall in Hall.
    specialize (Hall tz). rewrite <- list_elem_of_In in Hall.
    specialize (Hall (zoneOffsets_elem tz Htz)). unfold localDatesAre in Hall.
    pose proof timestampsAre_all_zones as Hts. rewrite forallb_forall in Hts.
    specialize (Hts tz). rewrite <- list_elem_of_In in Hts.
    specialize (Hts (zoneOffsets_elem tz Htz)). unfold timestampsAre in Hts.
    rewrite devpost_day_range in Hall, Hts.
    rewrite devpost_day_range, mlh_day_range.
    rewrite (rangeInYear_source _ "mlh" "devpost").
    destruct (rangeInYear (Date.parse tz) "devpost" "Oct" "15" "Oct" "17" "2024")
      as [r|]; [|done].
    apply andb_prop in Hts as [[[Hs1%bool_decide_eq_true Hs2%bool_decide_eq_true]%andb_prop
                                 Hp1%bool_decide_eq_true]%andb_prop Hp2%bool_decide_eq_true].
    rewrite Hp1, Hp2 in Hall.
    apply andb_prop in Hall as [H1%bool_decide_eq_true H2%bool_decide_eq_true].
    exists r, (localMidnight tz 2024 10 15), (localMidnight tz 2024 10 17).
    repeat split; assumption || reflexivity.
  - reflexivity.
  - intros getTime. split; apply parseDateRangeWith_usesCurrentYear.
Qed.

Lemma parseDateRange_day_range_witness :
  (-720 <= 60 <= 840)%Z
  ∧ ∃ r,
      DevpostAdapter.parseDateRange (Date.parse 60) 2026 "Oct 15 - 17, 2024" = Some r
      ∧ dr_start_date r = Date.toISOString (localMidnight 60 2024 10 15)
      ∧ dr_end_date r = Date.toISOString (localMidnight 60 2024 10 17).
Proof.
  assert (-720 <= 60 <= 840)%Z as H by lia.
  split; [exact H|].
  destruct (parseDateRange_day_range 60 2026 H)
    as [(r & ts & te & H1 & _ & -> & -> & H2 & H3 & _) _].
  exists r. exact (conj H1 (conj H2 H3)).
Defined.

(* ------------------------------------------------------------------ *)
(** ** Canonical URLs *)
(* ------------------------------------------------------------------ *)

Lemma searchParams_delete_all (names : list string) (u : Url.URL) :
  foldl (λ u param, Url.searchParams_delete param u) u names
  = {| Url.protocol := Url.protocol u; Url.username := Url.username u;
       Url.password := Url.password u; Url.host := Url.host u;
       Url.port := Url.port u; Url.opaquePath := Url.opaquePath u;
       Url.pathname := Url.pathname u;
       Url.searchParams := filter (λ p, p.1 ∉ names) (Url.searchParams u);
       Url.hash := Url.hash u |}.
Proof.
  revert u. induction names as [|name names IH]; intros u; cbn [foldl].
  - destruct u as [? ? ? ? ? ? ? params ?]. cbn. f_equal.
    induction params as [|p params IHp]; [done|].
    rewrite filter_cons. rewrite decide_True by apply not_elem_of_nil.
    by rewrite <- IHp.
  - rewrite IH. unfold Url.searchParams_delete. cbn. f_equal.
    rewrite list_filter_filter. apply list_filter_iff.
    intros p. rewrite not_elem_of_cons. tauto.
Qed.

Lemma stripTrailingSlash_first p :
  Url.stripTrailingSlash p ≠ "" ->
  Js.startsWith (Url.stripTrailingSlash p) "/" = Js.startsWith p "/".
Proof.
  destruct p as [|c p]; [done|]. cbn [Url.stripTrailingSlash].
  destruct p as [|c' p].
  - destruct (Ascii.eqb c "/"); [done|]. done.
  - intros _. unfold Js.startsWith. cbn [String.prefix].
    destruct (Ascii.ascii_dec "/" c); [|done].
    by destruct (Url.stripTrailingSlash (String c' p)).
Qed.

Lemma stripTrailingSlash_empty p :
  Js.startsWith p "/" = true -> Url.stripTrailingSlash p = "" -> p = "/".
Proof.
  destruct p as [|c [|c' p]]; [done| |].
  - intros _. cbn [Url.stripTrailingSlash].
    destruct (Ascii.eqb_spec c "/") as [->|_]; done.
  - intros _. cbn [Url.stripTrailingSlash]. done.
Qed.

Lemma stripWww_empty h : Url.stripWww h = "" -> h = "" ∨ h = "www.".
Proof.
  unfold Url.stripWww, Js.startsWith, Js.substringFrom.
  destruct h as [|c1 [|c2 [|c3 [|c4 [|c5 h]]]]]; cbn; auto;
    repeat (case_match; try done); intros; simplify_eq; auto.
Qed.

Lemma with_host_same (u : Url.URL) : Url.with_host (Url.host u) u = u.
Proof. by destruct u. Qed.

(** What the hostname setter makes of the host without its "www." ... *)
Lemma set_hostname_canonical (u : Url.URL) :
  Url.set_hostname (Url.stripWww (Url.hostname u)) u = Url.with_host (canonicalHost u) u.
Proof.
  unfold Url.set_hostname, canonicalHost.
  destruct (Url.opaquePath u); [by rewrite with_host_same|].
  destruct (String.eqb (Url.protocol u) "file:").
  { destruct (String.eqb_spec (Url.stripWww (Url.hostname u)) "") as [->|_]; [done|].
    by destruct (String.eqb (Url.stripWww (Url.hostname u)) "localhost"). }
  destruct (String.eqb (Url.stripWww (Url.hostname u)) ""); cbn [negb]; [|done].
  destruct (Url.isSpecial u); cbn [orb]; [by rewrite with_host_same|].
  destruct (Url.includesCredentials u || negb (String.eqb (Url.port u) ""));
    [by rewrite with_host_same|done].
Qed.

(** ... and what the pathname setter then makes of the path without its
    final slash. *)
Lemma set_pathname_canonical (u : Url.URL) :
  let u1 := Url.with_host (canonicalHost u) u in
  Url.set_pathname (Url.stripTrailingSlash (Url.pathname u1)) u1
  = Url.with_pathname (canonicalPath u) u1.
Proof.
  unfold Url.set_pathname, canonicalPath, Url.with_host, Url.isSpecial.
  cbn [Url.protocol Url.host Url.opaquePath Url.pathname].
  destruct (Url.opaquePath u) eqn:Hop.
  { unfold Url.with_pathname. cbn. done. }
  destruct (String.eqb_spec (Url.stripTrailingSlash (Url.pathname u)) "") as [Hrest|Hrest].
  - destruct (bool_decide (Url.protocol u ∈ Url.specialSchemes)); cbn [orb]; [done|].
    destruct (canonicalHost u); [by rewrite bool_decide_eq_false_2|].
    by rewrite bool_decide_eq_true_2.
  - by rewrite stripTrailingSlash_first.
Qed.

Lemma canonicalizeUrl_parsed (newURL : string -> option Url.URL)
    (toString : Url.URL -> string) (url : string) (u : Url.URL) :
  newURL url = Some u -> canonicalizeUrl newURL toString url = toString (canonicalURL u).
Proof.
  intros Hu. unfold canonicalizeUrl, canonicalizeUrl_try. rewrite Hu. f_equal.
  rewrite searchParams_delete_all. fold (withoutTracking u).
  rewrite set_hostname_canonical, set_pathname_canonical.
  unfold canonicalURL, canonicalPath, canonicalHost, withoutTracking,
    Url.with_pathname, Url.with_host, Url.hostname, Url.isSpecial, Url.includesCredentials.
  cbn [Url.protocol Url.username Url.password Url.host Url.port Url.opaquePath
       Url.pathname Url.searchParams Url.hash].
  reflexivity.
Qed.

Lemma canonicalURL_http (u : Url.URL) : isHttp u -> canonicalURL u = canonicalHttpURL u.
Proof.
  intros (Hscheme & Hop & [h Hh] & Hslash).
  assert (String.eqb (Url.protocol u) "file:" = false) as Hfile
    by (destruct Hscheme as [-> | ->]; done).
  assert (Url.isSpecial u = true) as Hspecial.
  { unfold Url.isSpecial. apply bool_decide_eq_true_2.
    destruct Hscheme as [-> | ->]; unfold Url.specialSchemes; set_solver. }
  unfold canonicalURL, canonicalHttpURL. f_equal.
  - unfold canonicalHost. rewrite Hop, Hfile, Hspecial. cbn [orb].
    unfold Url.hostname. rewrite Hh. cbv [default from_option id].
    destruct (String.eqb_spec (Url.stripWww h) "") as [Hrest|Hrest]; cbn [negb].
    + destruct (stripWww_empty h Hrest) as [-> | ->]; done.
    + destruct (String.eqb_spec h "www.") as [->|_]; [|done].
      exfalso. by apply Hrest.
  - exact Hop.
  - unfold canonicalPath. rewrite Hop, Hspecial. cbn [orb].
    destruct (String.eqb_spec (Url.stripTrailingSlash (Url.pathname u)) "") as [Hrest|Hrest].
    + rewrite (stripTrailingSlash_empty _ Hslash Hrest). done.
    + rewrite Hslash. destruct (String.eqb_spec (Url.pathname u) "/") as [Hp|_]; [|done].
      rewrite Hp in Hrest. done.
Qed.

Lemma canonicalURL_opaque (u : Url.URL) :
  Url.opaquePath u = true -> canonicalURL u = withoutTracking u.
Proof.
  intros Hop. unfold canonicalURL, canonicalHost, canonicalPath, withoutTracking.
  by rewrite Hop.
Qed.

(** A URL with the root path keeps its slash. *)
Lemma canonicalizeUrl_keeps_root_slash :
  canonicalizeUrl Url.plainParse Url.plainHref "https://www.example.com/"
  = "https://example.com/"
  ∧ canonicalizeUrl Url.plainParse Url.plainHref "https://www.example.com/"
    ≠ "https://example.com".
Proof. split; [vm_compute; reflexivity|vm_compute; discriminate]. Qed.

(** Other kinds of URL: a [mailto:] URL keeps its path with the slash, and a
    URL of a scheme that is not special loses the root path. *)
Example canonicalizeUrl_mailto_ex :
  canonicalizeUrl (λ _, Some mailtoURL) Url.plainHref "mailto:a@b.com/?ref=x"
  = "mailto:a@b.com/".
Proof. reflexivity. Qed.

Example canonicalizeUrl_foo_ex :
  canonicalizeUrl (λ _, Some fooURL) Url.plainHref "foo://www.example.com/?ref=x"
  = "foo://example.com".
Proof. reflexivity. Qed.

(** C10 (amended). [canonicalizeUrl] returns a string for every input: the
    input itself when it does not parse as a URL, and otherwise the
    serialisation of the URL without the listed tracking parameters and with
    the host and the path that the setters of the URL standard leave it
    ([canonicalURL]).  For an [http] or [https] URL that is the URL without a
    leading "www." on its host (unless the host is "www." alone) and without
    a trailing slash on its path, except that the root path stays "/".  A URL
    with an opaque path loses its tracking parameters only.  Of the other
    URLs, a [file:] URL also gets the empty host for "localhost", and a URL
    that is not special gets the empty host when nothing is left of its host
    and the empty path for the root path. *)
Theorem canonicalizeUrl_canonical (newURL : string -> option Url.URL)
    (toString : Url.URL -> string) (url : string) :
  (newURL url = None -> canonicalizeUrl newURL toString url = url)
  ∧ (∀ u, newURL url = Some u ->
          canonicalizeUrl newURL toString url = toString (canonicalURL u))
  ∧ (∀ u, newURL url = Some u -> isHttp u ->
          canonicalizeUrl newURL toString url = toString (canonicalHttpURL u))
  ∧ (∀ u, newURL url = Some u -> Url.opaquePath u = true ->
          canonicalizeUrl newURL toString url = toString (withoutTracking u)).
Proof.
  split; [|split; [|split]].
  - unfold canonicalizeUrl, canonicalizeUrl_try. by intros ->.
  - intros u Hu. by apply canonicalizeUrl_parsed.
  - intros u Hu Hhttp. rewrite <- canonicalURL_http by done.
    by apply canonicalizeUrl_parsed.
  - intros u Hu Hop. rewrite <- canonicalURL_opaque by done.
    by apply canonicalizeUrl_parsed.
Qed.

Lemma canonicalizeUrl_canonical_witness :
  let url := "https://www.Example.com:443/events/?utm_source=mail&id=7&ref=home#top" in
  ∃ u, Url.plainParse url = Some u ∧ isHttp u
       ∧ canonicalizeUrl Url.plainParse Url.plainHref url = Url.plainHref (canonicalHttpURL u)
       ∧ Url.plainHref (canonicalHttpURL u) = "https://example.com/events?id=7#top".
Proof.
  intros url.
  set (u := {| Url.protocol := "https:"; Url.username := ""; Url.password := "";
               Url.host := Some "www.example.com"; Url.port := "";
               Url.opaquePath := false; Url.pathname := "/events/";
               Url.searchParams := [("utm_source", "mail"); ("id", "7"); ("ref", "home")];
               Url.hash := "#top" |}).
  assert (Url.plainParse url = Some u) as Hu by (vm_compute; reflexivity).
  assert (isHttp u) as Hhttp by (repeat split; cbn; eauto).
  exists u. split; [exact Hu|]. split; [exact Hhttp|]. split.
  - exact (proj1 (proj2 (proj2 (canonicalizeUrl_canonical Url.plainParse Url.plainHref url)))
             u Hu Hhttp).
  - vm_compute. reflexivity.
Defined.

(* ------------------------------------------------------------------ *)
(** ** Further properties of the deduplication service *)
(* ------------------------------------------------------------------ *)

(** X1. The cell that [stringSimilarity] reads from its matrix is the cost of
    an edit script between the two strings, and no edit script is cheaper. *)
Theorem levenshteinMatrix_minimal_edit_cost (s1 s2 : list ascii) :
  let d := cell (levenshteinMatrix s1 s2) (length s2) (length s1) in
  edits s1 s2 d ∧ ∀ n, edits s1 s2 n -> d <= n.
Proof.
  cbv zeta. rewrite levenshteinMatrix_correct. split.
  - apply levenshtein_edits.
  - apply levenshtein_least.
Qed.

Lemma edits_zero a b n : edits a b n -> n = 0 -> a = b.
Proof.
  induction 1 as [|x a b n _ IH|y a b n _ IH|x y a b n _ IH]; intros Hn; try done.
  unfold indicator in Hn. destruct (Ascii.eqb_spec x y) as [->|]; [|lia].
  f_equal. apply IH. lia.
Qed.

Lemma chars_inj s t : Js.chars s = Js.chars t -> s = t.
Proof.
  intros H. rewrite <- (string_of_list_ascii_of_string s),
    <- (string_of_list_ascii_of_string t). unfold Js.chars in H. by rewrite H.
Qed.

(** X2. Two strings have similarity 1 exactly when they are equal after
    lowercasing and trimming. *)
Theorem stringSimilarity_one_iff (str1 str2 : string) :
  (stringSimilarity str1 str2 == 1)%Q ↔ normalized str1 = normalized str2.
Proof.
  unfold stringSimilarity, normalized.
  set (s1 := Js.trim (Js.toLowerCase str1)). set (s2 := Js.trim (Js.toLowerCase str2)).
  destruct (String.eqb_spec s1 s2) as [Heq|Hne]; [done|].
  split; [|done]. intros H. exfalso.
  destruct (Nat.eqb_spec (String.length s1) 0) as [H1|H1]; [discriminate|].
  destruct (Nat.eqb_spec (String.length s2) 0) as [H2|H2]; [discriminate|].
  cbn [orb] in H. rewrite stringSimilarity_cell in H.
  set (d := levenshtein (Js.chars s1) (Js.chars s2)) in *.
  set (m := Nat.max (String.length s1) (String.length s2)) in *.
  assert (d = 0) as Hd.
  { assert (~ inject_Z (Z.of_nat m) == 0)%Q as Hm
      by (apply inject_Z_nat_nonzero; unfold m; lia).
    assert (inject_Z (Z.of_nat m - Z.of_nat d)
            == inject_Z (Z.of_nat m - Z.of_nat d) / inject_Z (Z.of_nat m)
               * inject_Z (Z.of_nat m))%Q as H' by (field; exact Hm).
    rewrite H, Qmult_1_l in H'. rewrite inject_Z_injective in H'. lia. }
  apply Hne, chars_inj. eapply edits_zero; [apply levenshtein_edits|exact Hd].
Qed.

Lemma stringSimilarity_refl s : (stringSimilarity s s == 1)%Q.
Proof. unfold stringSimilarity. by rewrite String.eqb_refl. Qed.

(** X3. Every record has similarity 1 with itself and is a duplicate of
    itself at the default threshold. *)
Theorem calculateSimilarity_self (getTime : string -> option Z) (h : NormalizedHackathon) :
  (calculateSimilarity getTime h h == 1)%Q ∧ isDuplicate getTime h h None = true.
Proof.
  assert (calculateSimilarity getTime h h == 1)%Q as H.
  { rewrite calculateSimilarity_sum.
    assert (∀ s, stringSimilarity s s == 1)%Q as Hs
      by (intros s; apply stringSimilarity_refl).
    rewrite !Hs. unfold startDateCredit, onlineCredit.
    rewrite !decide_True by done. reflexivity. }
  split; [exact H|]. unfold isDuplicate. apply Qle_bool_iff. rewrite H. discriminate.
Qed.

(** X4. The merged record is built on a member of the group whose source
    ranks first in [mlh, devpost, eventbrite]: its title, dates, location,
    online flag and source are that member's. *)
Theorem mergeDuplicates_base_record (original : NormalizedHackathon)
    (duplicates : list NormalizedHackathon) :
  let merged := mergeDuplicates original duplicates in
  ∃ best,
    best ∈ original :: duplicates
    ∧ (∀ e, e ∈ original :: duplicates ->
         (indexOf sourcePriority (source best) <= indexOf sourcePriority (source e))%Z)
    ∧ title merged = title best ∧ start_date merged = start_date best
    ∧ end_date merged = end_date best ∧ location merged = location best
    ∧ is_online merged = is_online best ∧ source merged = source best.
Proof.
  destruct (mergeDuplicates_base original duplicates) as [Hin Hmin].
  exists (foldl pickBest original duplicates).
  split; [exact Hin|]. split; [exact Hmin|]. repeat split.
Qed.

(** X5. Merging a record with no duplicates gives the record back, provided
    its website URL is not the empty string (which the merge turns into an
    absent one). *)
Theorem mergeDuplicates_alone (h : NormalizedHackathon) :
  website_url h ≠ Some "" -> mergeDuplicates h [] = h.
Proof.
  intros Hw. destruct h as [t d s e rd l o w ru src]. simpl in Hw.
  unfold mergeDuplicates. cbn [foldl title description start_date end_date
    registration_deadline location is_online website_url registration_url source].
  f_equal.
  - cbn [List.find]. by rewrite Nat.ltb_irrefl, andb_false_r.
  - cbn [fmap list_fmap filterBoolean]. unfold Js.or_else.
    destruct rd as [rd|]; [|done]. unfold Js.truthy.
    destruct (String.eqb rd "") eqn:Hrd; cbn; rewrite ?Hrd; cbn; rewrite ?Hrd; done.
  - cbn [List.find]. unfold Js.or_else, Js.truthy.
    destruct w as [w|]; [|done].
    destruct (String.eqb_spec w "") as [->|]; [done|]. done.
  - cbn [List.find]. unfold Js.or_else, Js.truthy.
    destruct ru as [ru|]; [|done].
    destruct (String.eqb ru "") eqn:Hru; cbn; rewrite ?Hru; cbn; rewrite ?Hru; done.
Qed.

Lemma mergeDuplicates_alone_witness :
  website_url mergeEx_original ≠ Some ""
  ∧ mergeDuplicates mergeEx_original [] = mergeEx_original.
Proof.
  assert (website_url mergeEx_original ≠ Some "") as H by discriminate.
  split; [exact H|]. exact (mergeDuplicates_alone mergeEx_original H).
Defined.

Lemma ascii_compare_N a b : Ascii.compare a b = N.compare (N_of_ascii a) (N_of_ascii b).
Proof. reflexivity. Qed.

Lemma string_compare_trans_le s1 s2 s3 :
  String.compare s1 s2 ≠ Gt -> String.compare s2 s3 ≠ Gt -> String.compare s1 s3 ≠ Gt.
Proof.
  revert s2 s3. induction s1 as [|c1 s1 IH]; intros [|c2 s2] [|c3 s3]; simpl; try done.
  rewrite !ascii_compare_N.
  destruct (N.compare_spec (N_of_ascii c1) (N_of_ascii c2)) as [H12|H12|H12];
    destruct (N.compare_spec (N_of_ascii c2) (N_of_ascii c3)) as [H23|H23|H23];
    destruct (N.compare_spec (N_of_ascii c1) (N_of_ascii c3)) as [H13|H13|H13];
    try done; try lia.
  apply IH.
Qed.

Lemma string_leb_trans s1 s2 s3 :
  String.leb s1 s2 = true -> String.leb s2 s3 = true -> String.leb s1 s3 = true.
Proof.
  unfold String.leb. intros H12 H23.
  pose proof (string_compare_trans_le s1 s2 s3) as H.
  destruct (String.compare s1 s2), (String.compare s2 s3), (String.compare s1 s3);
    try done; exfalso; by apply H.
Qed.

Lemma string_leb_refl s : String.leb s s = true.
Proof. destruct (String.leb_total s s); done. Qed.

Lemma insertSorted_head x l :
  head (insertSorted x l)
  = Some (match head l with
          | Some y => if String.leb x y then x else y
          | None => x
          end).
Proof. destruct l as [|y l]; simpl; [done|]. by destruct (String.leb x y). Qed.

(** The first element of the sorted array is a least element of the array. *)
Lemma sort_head_least l :
  l ≠ [] ->
  ∃ d, head (sort l) = Some d ∧ d ∈ l ∧ ∀ d', d' ∈ l -> String.leb d d' = true.
Proof.
  induction l as [|x l IH]; [done|]. intros _.
  unfold sort in *. cbn [foldr]. rewrite insertSorted_head.
  destruct l as [|y l].
  - exists x. cbn. split; [done|]. split; [set_solver|].
    intros d' ->%list_elem_of_singleton. apply string_leb_refl.
  - destruct IH as (m & Hm & Hin & Hleast); [done|]. rewrite Hm.
    destruct (String.leb x m) eqn:Hxm.
    + exists x. split; [done|]. split; [set_solver|].
      intros d' [->|Hd']%elem_of_cons; [apply string_leb_refl|].
      eapply string_leb_trans; [exact Hxm|by apply Hleast].
    + exists m. split; [done|]. split; [set_solver|].
      intros d' [->|Hd']%elem_of_cons; [|by apply Hleast].
      destruct (String.leb_total x m) as [H|H]; [congruence|done].
Qed.

Lemma filterBoolean_elem l d :
  d ∈ filterBoolean l ↔ Some d ∈ l ∧ d ≠ "".
Proof.
  induction l as [|[x|] l IH]; cbn [filterBoolean].
  - split; [by intros ?%elem_of_nil|by intros [?%elem_of_nil _]].
  - unfold Js.truthy. destruct (String.eqb_spec x "") as [->|Hx]; cbn [negb].
    + rewrite IH, elem_of_cons. split; [tauto|]. intros [[[= ->]|?] ?]; tauto.
    + rewrite !elem_of_cons, IH. split.
      * intros [->|[? ?]]; auto.
      * intros [[[= ->]|?] ?]; auto.
  - rewrite IH, elem_of_cons. split; [tauto|]. intros [[?|?] ?]; [done|tauto].
Qed.

(** X6. When some record of the group has a registration deadline, the
    merged record carries the least of the group's non-empty deadlines in the
    order of their code units (the chronological order for ISO timestamps of
    one format); otherwise it carries the base's. *)
Theorem mergeDuplicates_earliest_deadline (original : NormalizedHackathon)
    (duplicates : list NormalizedHackathon) :
  let merged := mergeDuplicates original duplicates in
  let deadlines := filterBoolean (registration_deadline <$> original :: duplicates) in
  if decide (deadlines = [])
  then registration_deadline merged
       = registration_deadline (foldl pickBest original duplicates)
  else ∃ d, registration_deadline merged = Some d
            ∧ (∃ e, e ∈ original :: duplicates ∧ registration_deadline e = Some d)
            ∧ d ≠ ""
            ∧ ∀ d', d' ∈ deadlines -> String.leb d d' = true.
Proof.
  intros merged deadlines. unfold merged, mergeDuplicates.
  cbn [registration_deadline]. fold deadlines.
  destruct (decide (deadlines = [])) as [->|Hne]; [done|].
  destruct (sort_head_least deadlines Hne) as (d & Hd & Hin & Hleast).
  rewrite Hd. apply filterBoolean_elem in Hin as [Hin Hd0].
  exists d. split.
  - unfold Js.or_else, Js.truthy. by destruct (String.eqb_spec d "").
  - split; [|done].
    apply list_elem_of_fmap in Hin as (e & He & Hin). by exists e.
Qed.

Section GreedyGroupsMore.

Variable dup : NormalizedHackathon -> NormalizedHackathon -> bool.

Implicit Types (A : gset nat) (records later : list (nat * NormalizedHackathon)).

Lemma greedyGroups_sound A records g :
  g ∈ greedyGroups dup A records ->
  g.1 ∈ records ∧ g.2 ≠ []
  ∧ ∀ d, d ∈ g.2 -> d ∈ records ∧ dup g.1.2 d.2 = true.
Proof.
  revert A. induction records as [|[i hi] later IH]; intros A Hg.
  - by apply elem_of_nil in Hg.
  - cbn [greedyGroups] in Hg.
    assert (∀ A', g ∈ greedyGroups dup A' later ->
              g.1 ∈ (i, hi) :: later ∧ g.2 ≠ []
              ∧ ∀ d, d ∈ g.2 -> d ∈ (i, hi) :: later ∧ dup g.1.2 d.2 = true) as Hrec.
    { intros A' Hg'. destruct (IH A' Hg') as (H1 & H2 & H3).
      split; [set_solver|]. split; [done|].
      intros d Hd. destruct (H3 d Hd). split; [set_solver|done]. }
    destruct (decide (i ∈ A)); [by eapply Hrec|].
    destruct (filter _ later) as [|d0 ds] eqn:Hf; [by eapply Hrec|].
    apply elem_of_cons in Hg as [->|Hg]; [|by eapply Hrec].
    cbn [fst snd]. split; [set_solver|]. split; [done|].
    intros d Hd. rewrite <- Hf in Hd.
    apply list_elem_of_filter in Hd as [[_ Hdup] Hin]. split; [set_solver|done].
Qed.

Lemma greedyGroups_no_duplicates A records :
  (∀ p q x y, p < q -> records !! p = Some x -> records !! q = Some y ->
              dup x.2 y.2 = false) ->
  greedyGroups dup A records = [].
Proof.
  revert A. induction records as [|[i hi] later IH]; intros A Hno; [done|].
  assert (∀ A', greedyGroups dup A' later = []) as Hrec.
  { intros A'. apply IH. intros p q x y Hpq Hp Hq.
    apply (Hno (S p) (S q) x y); [lia|done|done]. }
  cbn [greedyGroups]. destruct (decide (i ∈ A)); [apply Hrec|].
  assert (filter (λ jh, (jh.1 ∉ A) ∧ (dup hi jh.2 = true)) later = []) as ->.
  { destruct (filter _ later) as [|x xs] eqn:Hf; [done|]. exfalso.
    assert (x ∈ filter (λ jh, (jh.1 ∉ A) ∧ (dup hi jh.2 = true)) later) as Hx
      by (rewrite Hf; set_solver).
    apply list_elem_of_filter in Hx as [[_ Hdup] [q Hq]%list_elem_of_lookup].
    specialize (Hno 0 (S q) (i, hi) x ltac:(lia) eq_refl Hq). simpl in Hno. congruence. }
  apply Hrec.
Qed.

End GreedyGroupsMore.

(** X7. Every group that [findDuplicates] returns has at least one duplicate;
    its original and its duplicates are records of the input, and every
    duplicate scores at least the threshold against the original. *)
Theorem findDuplicates_groups_sound (getTime : string -> option Z)
    (hackathons : list NormalizedHackathon) (threshold : option Q) (g : DuplicateGroup) :
  g ∈ findDuplicates getTime hackathons threshold ->
  duplicates g ≠ []
  ∧ original g ∈ hackathons
  ∧ ∀ d, d ∈ duplicates g ->
      d ∈ hackathons
      ∧ isDuplicate getTime (original g) d (Some (default (85 # 100) threshold)) = true.
Proof.
  intros Hg.
  destruct (findDuplicates_greedy_groups getTime hackathons threshold) as [Heq _].
  rewrite Heq in Hg. apply list_elem_of_fmap in Hg as (g' & -> & Hg').
  apply greedyGroups_sound in Hg' as (H1 & H2 & H3).
  assert (∀ x, x ∈ indexedFrom 0 hackathons -> x.2 ∈ hackathons) as Hidx.
  { intros [k x] [p Hp]%list_elem_of_lookup. rewrite indexedFrom_lookup in Hp.
    destruct (hackathons !! p) eqn:E; simplify_eq/=. by eapply list_elem_of_lookup_2. }
  unfold forgetPositions. cbn [original duplicates]. split; [|split].
  - intros Hnil. apply fmap_nil_inv in Hnil. done.
  - by apply Hidx.
  - intros d (x & -> & Hx)%list_elem_of_fmap. destruct (H3 x Hx) as [Hin Hdup].
    split; [by apply Hidx|done].
Qed.

Lemma findDuplicates_groups_sound_witness :
  let hs := [mergeEx_original; mergeEx_second] in
  ∃ g, g ∈ findDuplicates (Date.parse 0) hs None
       ∧ duplicates g ≠ [] ∧ original g ∈ hs.
Proof.
  set (g := mkGroup mergeEx_original [mergeEx_second]).
  assert (g ∈ findDuplicates (Date.parse 0) [mergeEx_original; mergeEx_second] None) as H.
  { vm_compute. constructor. }
  exists g. split; [exact H|].
  destruct (findDuplicates_groups_sound (Date.parse 0)
              [mergeEx_original; mergeEx_second] None g H) as (H1 & H2 & _).
  exact (conj H1 H2).
Defined.

(** X8. [findDuplicates] returns no group exactly when no record of the input
    is a duplicate of an earlier one. *)
Theorem findDuplicates_nil_iff (getTime : string -> option Z)
    (hackathons : list NormalizedHackathon) (threshold : option Q) :
  findDuplicates getTime hackathons threshold = []
  ↔ ∀ i j hi hj, i < j -> hackathons !! i = Some hi -> hackathons !! j = Some hj ->
      isDuplicate getTime hi hj (Some (default (85 # 100) threshold)) = false.
Proof.
  destruct (findDuplicates_greedy_groups getTime hackathons threshold) as [Heq _].
  rewrite Heq. set (dup := λ a b, isDuplicate getTime a b _). split.
  - intros Hnil%fmap_nil_inv i j hi hj Hij Hi Hj.
    apply (greedyGroups_survivors dup ∅ (indexedFrom 0 hackathons) i j i hi j hj);
      rewrite ?indexedFrom_lookup, ?Hi, ?Hj, ?Hnil; try done.
    all: cbn; set_solver.
  - intros Hno. rewrite greedyGroups_no_duplicates; [done|].
    intros p q [i x] [j y] Hpq Hp Hq. rewrite indexedFrom_lookup in Hp, Hq.
    destruct (hackathons !! p) eqn:Ep; destruct (hackathons !! q) eqn:Eq;
      simplify_eq/=. by eapply Hno.
Qed.

(* ------------------------------------------------------------------ *)
(** ** Further properties of the adapter base class *)
(* ------------------------------------------------------------------ *)

(** X9. For a candidate whose start and end timestamps parse as dates,
    [validateHackathon] returns normally exactly when title, start date, end
    date, location and source are present and the start is strictly before
    the end. *)
Theorem validateHackathon_succeeds_iff (getTime : string -> option Z)
    (source_id : string) (d : PartialHackathon) :
  is_Some (p_start_date d ≫= getTime) -> is_Some (p_end_date d ≫= getTime) ->
  BaseAdapter.validateHackathon getTime source_id d = Return tt
  ↔ requiredPresent d ∧ startBeforeEnd getTime d.
Proof. apply validateHackathon_iff. Qed.

Lemma validateHackathon_succeeds_iff_witness :
  is_Some (p_start_date (toPartial mergeEx_original) ≫= Date.parse 0)
  ∧ is_Some (p_end_date (toPartial mergeEx_original) ≫= Date.parse 0)
  ∧ BaseAdapter.validateHackathon (Date.parse 0) "mlh" (toPartial mergeEx_original)
    = Return tt.
Proof.
  assert (is_Some (p_start_date (toPartial mergeEx_original) ≫= Date.parse 0)) as H1
    by (vm_compute; eauto).
  assert (is_Some (p_end_date (toPartial mergeEx_original) ≫= Date.parse 0)) as H2
    by (vm_compute; eauto).
  split; [exact H1|]. split; [exact H2|].
  apply (validateHackathon_succeeds_iff (Date.parse 0) "mlh" _ H1 H2).
  split.
  - repeat split; vm_compute; eauto.
  - exists 1728950400000%Z, 1729123200000%Z. repeat split; vm_compute; reflexivity.
Defined.

(** X10. The date check lets a candidate pass whose start or end timestamp
    does not parse as a date: with the required fields present,
    [validateHackathon] returns normally. *)
Theorem validateHackathon_unparseable_passes (getTime : string -> option Z)
    (source_id : string) (d : PartialHackathon) :
  requiredPresent d ->
  p_start_date d ≫= getTime = None ∨ p_end_date d ≫= getTime = None ->
  BaseAdapter.validateHackathon getTime source_id d = Return tt.
Proof.
  intros (Ht & Hs & He & Hl & [src Hsrc]) Hnone.
  unfold BaseAdapter.validateHackathon. rewrite Ht, Hs, He, Hl, Hsrc. cbn.
  destruct Hnone as [-> | ->]; [done|].
  by destruct (p_start_date d ≫= getTime).
Qed.

Lemma validateHackathon_unparseable_passes_witness :
  requiredPresent undatedCandidate
  ∧ p_start_date undatedCandidate ≫= Date.parse 0 = None
  ∧ BaseAdapter.validateHackathon (Date.parse 0) "devpost" undatedCandidate = Return tt.
Proof.
  assert (requiredPresent undatedCandidate) as H1 by (repeat split; vm_compute; eauto).
  assert (p_start_date undatedCandidate ≫= Date.parse 0 = None) as H2 by reflexivity.
  split; [exact H1|]. split; [exact H2|].
  exact (validateHackathon_unparseable_passes (Date.parse 0) "devpost" _ H1 (or_introl H2)).
Defined.

Lemma isWhiteSpace_space : Js.isWhiteSpace " " = true.
Proof. reflexivity. Qed.

Lemma isWhiteSpace_newline : Js.isWhiteSpace "010" = true.
Proof. reflexivity. Qed.

Lemma replaceWhitespaceRuns_singleSpaced b s :
  singleSpaced b (BaseAdapter.replaceWhitespaceRuns b s) = true.
Proof.
  revert b. induction s as [|c s IH]; intros b; [done|].
  cbn [BaseAdapter.replaceWhitespaceRuns].
  destruct (Js.isWhiteSpace c) eqn:Hc.
  - destruct b; [apply IH|]. cbn [singleSpaced]. rewrite isWhiteSpace_space.
    by rewrite IH.
  - cbn [singleSpaced]. rewrite Hc. apply IH.
Qed.

Lemma singleSpaced_replaceWhitespaceRuns b s :
  singleSpaced b s = true -> BaseAdapter.replaceWhitespaceRuns b s = s.
Proof.
  revert b. induction s as [|c s IH]; intros b; [done|].
  cbn [singleSpaced BaseAdapter.replaceWhitespaceRuns].
  destruct (Js.isWhiteSpace c) eqn:Hc.
  - intros [[->%Ascii.eqb_eq Hb%negb_true_iff]%andb_prop Hs]%andb_prop.
    rewrite Hb. by rewrite IH.
  - intros Hs. by rewrite IH.
Qed.

Lemma singleSpaced_replaceNewlineRuns b b' s :
  singleSpaced b s = true -> BaseAdapter.replaceNewlineRuns b' s = s.
Proof.
  revert b b'. induction s as [|c s IH]; intros b b'; [done|].
  cbn [singleSpaced BaseAdapter.replaceNewlineRuns].
  destruct (Ascii.eqb_spec c "010") as [->|Hc].
  - rewrite isWhiteSpace_newline. cbn. discriminate.
  - destruct (Js.isWhiteSpace c).
    + intros [_ Hs]%andb_prop. by rewrite (IH true).
    + intros Hs. by rewrite (IH false).
Qed.

Lemma singleSpaced_weaken s : singleSpaced true s = true -> singleSpaced false s = true.
Proof.
  destruct s as [|c s]; [done|]. cbn [singleSpaced].
  destruct (Js.isWhiteSpace c); [|done]. rewrite andb_false_r. done.
Qed.

Lemma singleSpaced_trimStart b s :
  singleSpaced b s = true -> singleSpaced false (Js.trimStart s) = true.
Proof.
  revert b. induction s as [|c s IH]; intros b; [done|].
  cbn [singleSpaced Js.trimStart]. destruct (Js.isWhiteSpace c) eqn:Hc.
  - intros [_ Hs]%andb_prop. by eapply IH.
  - intros Hs. cbn [singleSpaced]. by rewrite Hc.
Qed.

Lemma singleSpaced_trimEnd b s :
  singleSpaced b s = true -> singleSpaced b (Js.trimEnd s) = true.
Proof.
  revert b. induction s as [|c s IH]; intros b; [done|].
  cbn [singleSpaced Js.trimEnd]. destruct (Js.isWhiteSpace c) eqn:Hc.
  - intros [Hcb Hs]%andb_prop. specialize (IH true Hs).
    destruct (Js.trimEnd s) as [|c' t]; [done|].
    cbn [singleSpaced] in *. by rewrite Hc, Hcb.
  - intros Hs. specialize (IH false Hs).
    destruct (Js.trimEnd s) as [|c' t]; cbn [singleSpaced] in *; by rewrite Hc.
Qed.

Lemma trimEnd_idempotent s : Js.trimEnd (Js.trimEnd s) = Js.trimEnd s.
Proof.
  induction s as [|c s IH]; [done|]. cbn [Js.trimEnd].
  destruct (Js.trimEnd s) as [|c' t] eqn:Ht.
  - destruct (Js.isWhiteSpace c) eqn:Hc; [done|]. cbn. by rewrite Hc.
  - cbn [Js.trimEnd] in *. by rewrite IH.
Qed.

Lemma trimEnd_head c s :
  Js.isWhiteSpace c = false -> ∃ t, Js.trimEnd (String c s) = String c t.
Proof.
  intros Hc. cbn [Js.trimEnd]. destruct (Js.trimEnd s); rewrite ?Hc; eauto.
Qed.

Lemma trim_idempotent s : Js.trim (Js.trim s) = Js.trim s.
Proof.
  unfold Js.trim.
  assert (Js.trimStart (Js.trimEnd (Js.trimStart s)) = Js.trimEnd (Js.trimStart s)) as ->.
  { induction s as [|c s IH]; [done|]. cbn [Js.trimStart].
    destruct (Js.isWhiteSpace c) eqn:Hc; [exact IH|].
    destruct (trimEnd_head c s Hc) as [t ->]. cbn [Js.trimStart]. by rewrite Hc. }
  apply trimEnd_idempotent.
Qed.

(** X11. [cleanText] leaves white space only as single spaces between other
    characters, and cleaning a cleaned text changes nothing. *)
Theorem cleanText_idempotent (text : string) :
  singleSpaced false (BaseAdapter.cleanText text) = true
  ∧ Js.trim (BaseAdapter.cleanText text) = BaseAdapter.cleanText text
  ∧ BaseAdapter.cleanText (BaseAdapter.cleanText text) = BaseAdapter.cleanText text.
Proof.
  assert (singleSpaced false (BaseAdapter.cleanText text) = true) as Hs.
  { unfold BaseAdapter.cleanText, Js.trim.
    rewrite (singleSpaced_replaceNewlineRuns false)
      by apply replaceWhitespaceRuns_singleSpaced.
    apply singleSpaced_trimEnd. eapply singleSpaced_trimStart.
    apply replaceWhitespaceRuns_singleSpaced. }
  assert (Js.trim (BaseAdapter.cleanText text) = BaseAdapter.cleanText text) as Ht
    by (unfold BaseAdapter.cleanText; apply trim_idempotent).
  split; [exact Hs|]. split; [exact Ht|].
  unfold BaseAdapter.cleanText at 1.
  rewrite (singleSpaced_replaceWhitespaceRuns false) by exact Hs.
  rewrite (singleSpaced_replaceNewlineRuns false) by exact Hs.
  exact Ht.
Qed.

(* ------------------------------------------------------------------ *)
(** ** Further properties of [findDuplicates] *)
(* ------------------------------------------------------------------ *)

Lemma calculateSimilarity_bounds getTime a b :
  (0 <= calculateSimilarity getTime a b <= 1)%Q.
Proof.
  pose proof (calculateSimilarity_sum getTime a b) as Hsum.
  pose proof (stringSimilarity_bounds (title a) (title b)) as [Ht0 Ht1].
  pose proof (stringSimilarity_bounds (location a) (location b)) as [Hl0 Hl1].
  assert (0 <= startDateCredit getTime a b <= 3 # 10)%Q as [Hd0 Hd1].
  { unfold startDateCredit. repeat case_match; split; discriminate. }
  assert (0 <= onlineCredit a b <= 1 # 10)%Q as [Ho0 Ho1].
  { unfold onlineCredit. case_match; split; discriminate. }
  rewrite Hsum. split; lra.
Qed.

Lemma indexedFrom_snd {A} k (l : list A) : (indexedFrom k l).*2 = l.
Proof. revert k. induction l as [|x l IH]; intros k; cbn; [done|]. by rewrite IH. Qed.

Lemma indexedFrom_elem_snd {A} k (l : list A) x : x ∈ indexedFrom k l -> x.2 ∈ l.
Proof.
  intros Hx. rewrite <- (indexedFrom_snd k l). apply list_elem_of_fmap. eauto.
Qed.

Lemma filter_all {A} (P : A -> Prop) `{!∀ x, Decision (P x)} (l : list A) :
  (∀ x, x ∈ l -> P x) -> filter P l = l.
Proof.
  induction l as [|x l IH]; intros HP; [done|].
  rewrite filter_cons_True by (apply HP; constructor).
  rewrite IH; [done|]. intros y Hy. apply HP. by constructor.
Qed.

Lemma greedyGroups_all_assigned dup (A : gset nat)
    (records : list (nat * NormalizedHackathon)) :
  (∀ x, x ∈ records -> x.1 ∈ A) -> greedyGroups dup A records = [].
Proof.
  induction records as [|[i hi] later IH]; intros HA; [done|].
  cbn [greedyGroups]. rewrite decide_True by (apply (HA (i, hi)); constructor).
  apply IH. intros x Hx. apply HA. by constructor.
Qed.

Lemma greedyGroups_duplicates_later dup (A : gset nat) i hi
    (later : list (nat * NormalizedHackathon)) g :
  g ∈ greedyGroups dup A ((i, hi) :: later) -> ∀ d, d ∈ g.2 -> d ∈ later.
Proof.
  cbn [greedyGroups]. intros Hg d Hd.
  assert (∀ A', g ∈ greedyGroups dup A' later -> d ∈ later) as Hrec.
  { intros A' Hg'. apply greedyGroups_sound in Hg' as (_ & _ & H3). by apply H3. }
  destruct (decide (i ∈ A)); [by eapply Hrec|].
  destruct (filter _ later) as [|d0 ds] eqn:Hf; [by eapply Hrec|].
  apply elem_of_cons in Hg as [->|Hg]; [|by eapply Hrec].
  cbn [snd] in Hd. rewrite <- Hf in Hd. by apply list_elem_of_filter in Hd as [_ ?].
Qed.

(** X12. With a threshold above 1 [findDuplicates] finds no group, whatever
    the records: no score exceeds 1. *)
Theorem findDuplicates_threshold_above_one (getTime : string -> option Z)
    (hackathons : list NormalizedHackathon) (threshold : Q) :
  (1 < threshold)%Q -> findDuplicates getTime hackathons (Some threshold) = [].
Proof.
  intros Hthr.
  destruct (findDuplicates_greedy_groups getTime hackathons (Some threshold)) as [-> _].
  rewrite greedyGroups_no_duplicates; [done|].
  intros p q x y _ _ _. cbn [default]. unfold isDuplicate. cbn [default].
  apply not_true_is_false. intros H%Qle_bool_iff.
  change (threshold <= calculateSimilarity getTime x.2 y.2)%Q in H.
  pose proof (calculateSimilarity_bounds getTime x.2 y.2) as [_ H1]. lra.
Qed.

Lemma findDuplicates_threshold_above_one_witness :
  (1 < 2)%Q
  ∧ findDuplicates (Date.parse 0) [mergeEx_original; mergeEx_second] (Some 2%Q) = [].
Proof.
  assert (1 < 2)%Q as H by reflexivity.
  split; [exact H|].
  exact (findDuplicates_threshold_above_one (Date.parse 0)
           [mergeEx_original; mergeEx_second] 2%Q H).
Defined.

(** X13. With a threshold of 0 or less every record is a duplicate of the
    first one: [findDuplicates] returns the single group of the first record
    with all the others. *)
Theorem findDuplicates_threshold_nonpositive (getTime : string -> option Z)
    (h0 h1 : NormalizedHackathon) (rest : list NormalizedHackathon) (threshold : Q) :
  (threshold <= 0)%Q ->
  findDuplicates getTime (h0 :: h1 :: rest) (Some threshold) = [mkGroup h0 (h1 :: rest)].
Proof.
  intros Hthr.
  destruct (findDuplicates_greedy_groups getTime (h0 :: h1 :: rest) (Some threshold))
    as [-> _].
  change (indexedFrom 0 (h0 :: h1 :: rest)) with ((0, h0) :: indexedFrom 1 (h1 :: rest)).
  pose proof (indexedFrom_snd 1 (h1 :: rest)) as Hsnd.
  set (later := indexedFrom 1 (h1 :: rest)) in *. clearbody later.
  cbn [default greedyGroups].
  rewrite decide_False by set_solver.
  rewrite filter_all.
  2:{ intros x _. split; [set_solver|]. unfold isDuplicate. cbn [default].
      apply Qle_bool_iff.
      change (threshold <= calculateSimilarity getTime h0 x.2)%Q.
      pose proof (calculateSimilarity_bounds getTime h0 x.2) as [H0 _]. lra. }
  rewrite greedyGroups_all_assigned.
  2:{ intros x Hx. apply elem_of_union_l, elem_of_list_to_set, list_elem_of_fmap. eauto. }
  destruct later as [|x later]; [done|].
  unfold forgetPositions. cbn [fmap list_fmap fst snd]. by rewrite <- Hsnd.
Qed.

Lemma findDuplicates_threshold_nonpositive_witness :
  (0 <= 0)%Q
  ∧ findDuplicates (Date.parse 0) [mergeEx_original; mergeEx_second; mergeEx_third]
      (Some 0%Q)
    = [mkGroup mergeEx_original [mergeEx_second; mergeEx_third]].
Proof.
  assert (0 <= 0)%Q as H by discriminate.
  split; [exact H|].
  exact (findDuplicates_threshold_nonpositive (Date.parse 0)
           mergeEx_original mergeEx_second [mergeEx_third] 0%Q H).
Defined.

(** X14. The first record of the input is never listed as a duplicate: in
    [findDuplicates (event :: recent)], as [processEvent] calls it, the
    duplicates of every group are records of [recent]. *)
Theorem findDuplicates_head_never_duplicate (getTime : string -> option Z)
    (event : NormalizedHackathon) (recent : list NormalizedHackathon)
    (threshold : option Q) (g : DuplicateGroup) :
  g ∈ findDuplicates getTime (event :: recent) threshold ->
  ∀ d, d ∈ duplicates g -> d ∈ recent.
Proof.
  intros Hg d Hd.
  destruct (findDuplicates_greedy_groups getTime (event :: recent) threshold) as [Heq _].
  rewrite Heq in Hg. apply list_elem_of_fmap in Hg as (g' & -> & Hg').
  cbn [indexedFrom] in Hg'. unfold forgetPositions in Hd. cbn [duplicates] in Hd.
  apply list_elem_of_fmap in Hd as (x & -> & Hx).
  apply (indexedFrom_elem_snd 1). by eapply greedyGroups_duplicates_later.
Qed.

Lemma findDuplicates_head_never_duplicate_witness :
  ∃ g, g ∈ findDuplicates (Date.parse 0) (mergeEx_original :: [mergeEx_second]) None
       ∧ ∀ d, d ∈ duplicates g -> d ∈ [mergeEx_second].
Proof.
  set (g := mkGroup mergeEx_original [mergeEx_second]).
  assert (g ∈ findDuplicates (Date.parse 0) (mergeEx_original :: [mergeEx_second]) None)
    as H by (vm_compute; constructor).
  exists g. split; [exact H|].
  exact (findDuplicates_head_never_duplicate (Date.parse 0) mergeEx_original
           [mergeEx_second] None g H).
Defined.

(* ------------------------------------------------------------------ *)
(** ** Further properties of the HTTP client *)
(* ------------------------------------------------------------------ *)

Section RetriesMore.

Variable network : string -> nat -> FetchOutcome.
Variable this : HttpClient.

Lemma tryFetch_state url attempt st :
  (tryFetch network url attempt st).2
  = {| fetchCount := S (fetchCount st); events := events st ++ [EvFetch url attempt] |}.
Proof.
  unfold tryFetch. destruct (network url (fetchCount st)) as [[|] ? ? ?|?]; done.
Qed.

Lemma tryFetch_success url attempt st status statusText text :
  network url (fetchCount st) = Responded true status statusText (Return text) ->
  tryFetch network url attempt st
  = (Return text, {| fetchCount := S (fetchCount st);
                     events := events st ++ [EvFetch url attempt] |}).
Proof. unfold tryFetch. by intros ->. Qed.

Lemma retrySchedule_cons url d attempt n :
  retrySchedule url d attempt (S (S n))
  = EvFetch url attempt :: EvSleep (d * 2 ^ (attempt - 1))
    :: retrySchedule url d (attempt + 1) (S n).
Proof. reflexivity. Qed.

Lemma makeRequest_eventual_success url source_id (k : nat) attempt st
    status statusText text :
  (attempt + Z.of_nat k <= maxRetries this)%Z ->
  (∀ n, n < k -> is_Some (failureOf (network url (fetchCount st + n)))) ->
  network url (fetchCount st + k) = Responded true status statusText (Return text) ->
  makeRequest network this url source_id attempt st
  = (Return text,
     {| fetchCount := fetchCount st + S k;
        events := events st ++ retrySchedule url (retryDelay this) attempt (S k) |}).
Proof.
  revert attempt st. induction k as [|k IH]; intros attempt st Hle Hfail Hok.
  - rewrite Nat.add_0_r in Hok.
    rewrite makeRequest_step, (tryFetch_success _ _ _ _ _ _ Hok).
    cbn [retrySchedule]. by rewrite Nat.add_1_r.
  - destruct (Hfail 0) as [cause Hc]; [lia|]. rewrite Nat.add_0_r in Hc.
    rewrite makeRequest_step, (tryFetch_failure _ _ _ _ _ Hc).
    rewrite decide_True by lia.
    rewrite (IH (attempt + 1)%Z); unfold sleep; cbn [fetchCount events].
    + rewrite retrySchedule_cons. f_equal. f_equal; [lia|].
      by rewrite <- !app_assoc.
    + lia.
    + intros n Hn. replace (S (fetchCount st) + n) with (fetchCount st + S n) by lia.
      apply Hfail. lia.
    + rewrite <- Hok. f_equal. lia.
Qed.

Lemma makeRequest_trace url source_id (r : nat) attempt st :
  Z.to_nat (maxRetries this - attempt) = r ->
  ∃ n, 1 <= n <= S r
       ∧ (makeRequest network this url source_id attempt st).2
         = {| fetchCount := fetchCount st + n;
              events := events st ++ retrySchedule url (retryDelay this) attempt n |}.
Proof.
  revert attempt st. induction r as [|r IH]; intros attempt st Hr;
    rewrite makeRequest_step;
    pose proof (tryFetch_state url attempt st) as Hst;
    destruct (tryFetch network url attempt st) as [[text|error] st1];
    cbn [snd] in Hst; subst st1.
  - exists 1. split; [lia|]. cbn [snd retrySchedule]. by rewrite Nat.add_1_r.
  - exists 1. split; [lia|]. rewrite decide_False by lia.
    cbn [snd retrySchedule]. by rewrite Nat.add_1_r.
  - exists 1. split; [lia|]. cbn [snd retrySchedule]. by rewrite Nat.add_1_r.
  - destruct (decide (attempt < maxRetries this)%Z) as [Hlt|Hge].
    + edestruct (IH (attempt + 1)%Z) as (n & Hn & ->); [lia|].
      exists (S n). split; [lia|]. unfold sleep. cbn [fetchCount events].
      destruct n as [|n]; [lia|]. rewrite retrySchedule_cons.
      f_equal; [lia|]. by rewrite <- !app_assoc.
    + exists 1. split; [lia|]. cbn [snd retrySchedule]. by rewrite Nat.add_1_r.
Qed.

End RetriesMore.

(** X15. [get] stops at the first attempt that succeeds: when the first [k]
    attempts fail, [k] is less than the configured maximum and attempt [k+1]
    is answered with an ok response whose body can be read, [get] returns that
    body after exactly [k+1] requests, with the waits
    [retryDelay * 2^(attempt-1)] between them and none after. *)
Theorem get_stops_at_first_success (network : string -> nat -> FetchOutcome)
    (this : HttpClient) (url source_id : string) (st : NetState) (k : nat)
    (status : Z) (statusText text : string) :
  (Z.of_nat k < maxRetries this)%Z ->
  (∀ n, n < k -> is_Some (failureOf (network url (fetchCount st + n)))) ->
  network url (fetchCount st + k) = Responded true status statusText (Return text) ->
  get network this url source_id st
  = (Return text,
     {| fetchCount := fetchCount st + S k;
        events := events st ++ retrySchedule url (retryDelay this) 1 (S k) |}).
Proof.
  intros Hk Hfail Hok. unfold get.
  apply (makeRequest_eventual_success network this url source_id k 1 st
           status statusText text); [lia|done|done].
Qed.

Lemma get_stops_at_first_success_witness :
  let url := "https://mlh.io/seasons/2025/events" in
  (Z.of_nat 2 < maxRetries (newHttpClient noOptions))%Z
  ∧ (∀ n, n < 2 -> is_Some (failureOf (flakyNetwork url (fetchCount idleNet + n))))
  ∧ flakyNetwork url (fetchCount idleNet + 2) = Responded true 200 "OK" (Return "<html></html>")
  ∧ get flakyNetwork (newHttpClient noOptions) url "mlh" idleNet
    = (Return "<html></html>",
       {| fetchCount := 3;
          events := [EvFetch url 1; EvSleep 1000; EvFetch url 2; EvSleep 2000;
                     EvFetch url 3] |}).
Proof.
  intros url.
  assert (Z.of_nat 2 < maxRetries (newHttpClient noOptions))%Z as H1 by reflexivity.
  assert (∀ n, n < 2 -> is_Some (failureOf (flakyNetwork url (fetchCount idleNet + n))))
    as H2.
  { intros n Hn. cbn [idleNet fetchCount Nat.add]. unfold flakyNetwork.
    destruct n as [|[|n]]; [cbn; eauto..|lia]. }
  assert (flakyNetwork url (fetchCount idleNet + 2)
          = Responded true 200 "OK" (Return "<html></html>")) as H3 by reflexivity.
  split; [exact H1|]. split; [exact H2|]. split; [exact H3|].
  exact (get_stops_at_first_success flakyNetwork (newHttpClient noOptions)
           url "mlh" idleNet 2 200 "OK" "<html></html>" H1 H2 H3).
Defined.

(** X16. Whatever the network answers, one call of [get] makes at least one
    request and at most [max 1 maxRetries] requests for its URL, numbered from
    1, with exactly one wait between two consecutive requests and none after
    the last. *)
Theorem get_request_bounds (network : string -> nat -> FetchOutcome)
    (this : HttpClient) (url source_id : string) (st : NetState) :
  ∃ n, 1 <= n <= Z.to_nat (Z.max 1 (maxRetries this))
       ∧ (get network this url source_id st).2
         = {| fetchCount := fetchCount st + n;
              events := events st ++ retrySchedule url (retryDelay this) 1 n |}.
Proof.
  destruct (makeRequest_trace network this url source_id
              (Z.to_nat (maxRetries this - 1)) 1 st eq_refl) as (n & Hn & Heq).
  exists n. split; [lia|exact Heq].
Qed.

(** X17. The constructor never leaves a setting at zero or empty: a missing,
    zero or empty option falls back to its default, so retries cannot be
    switched off with [maxRetries: 0] and the delay cannot be set to 0. *)
Theorem newHttpClient_settings_nonzero (options : HttpClientOptions) :
  let this := newHttpClient options in
  userAgent this ≠ "" ∧ timeout this ≠ 0%Z ∧ maxRetries this ≠ 0%Z
  ∧ retryDelay this ≠ 0%Z
  ∧ (opt_maxRetries options = Some 0%Z -> maxRetries this = 3%Z).
Proof.
  cbn. unfold Js.numberOr, Js.or_else, Js.truthy.
  repeat split.
  - destruct (opt_userAgent options) as [s|]; [|done].
    destruct (String.eqb_spec s ""); cbn; done.
  - destruct (opt_timeout options) as [n|]; [|done]. destruct (Z.eqb_spec n 0); done.
  - destruct (opt_maxRetries options) as [n|]; [|done]. destruct (Z.eqb_spec n 0); done.
  - destruct (opt_retryDelay options) as [n|]; [|done]. destruct (Z.eqb_spec n 0); done.
  - by intros ->.
Qed.

(** X18. robots.txt that cannot be fetched does not stop an adapter: when
    every request for it fails, [isRobotsTxtCompliant] answers true, after
    [maxRetries] requests for [<baseUrl>/robots.txt]. *)
Theorem isRobotsTxtCompliant_unreachable (network : string -> nat -> FetchOutcome)
    (httpClient : HttpClient) (baseUrl : string) (scrapingPaths : list string)
    (st : NetState) :
  (1 <= maxRetries httpClient)%Z ->
  (∀ n, is_Some (failureOf (network (robotsUrl baseUrl) n))) ->
  isRobotsTxtCompliant network httpClient baseUrl scrapingPaths st
  = (true,
     {| fetchCount := fetchCount st + Z.to_nat (maxRetries httpClient);
        events := events st ++ retrySchedule (robotsUrl baseUrl) (retryDelay httpClient) 1
                                 (Z.to_nat (maxRetries httpClient)) |}).
Proof.
  intros Hmax Hfail.
  destruct (makeRequest_persistent_failure network httpClient (robotsUrl baseUrl)
              "robots-check" (Z.to_nat (maxRetries httpClient) - 1) 1 st Hfail Hmax)
    as (cause & _ & Hget); [lia|].
  unfold isRobotsTxtCompliant, checkRobotsTxt, get. rewrite Hget. cbn [Js.truthy negb].
  replace (S (Z.to_nat (maxRetries httpClient) - 1))
    with (Z.to_nat (maxRetries httpClient)) by lia.
  done.
Qed.

Lemma isRobotsTxtCompliant_unreachable_witness :
  (1 <= maxRetries (newHttpClient noOptions))%Z
  ∧ (∀ n, is_Some (failureOf (deadNetwork (robotsUrl "https://devpost.com") n)))
  ∧ isRobotsTxtCompliant deadNetwork (newHttpClient noOptions) "https://devpost.com"
      ["/hackathons"] idleNet
    = (true,
       {| fetchCount := 3;
          events := [EvFetch "https://devpost.com/robots.txt" 1; EvSleep 1000;
                     EvFetch "https://devpost.com/robots.txt" 2; EvSleep 2000;
                     EvFetch "https://devpost.com/robots.txt" 3] |}).
Proof.
  assert (1 <= maxRetries (newHttpClient noOptions))%Z as H1 by discriminate.
  assert (∀ n, is_Some (failureOf (deadNetwork (robotsUrl "https://devpost.com") n)))
    as H2 by (intros n; cbn; eauto).
  split; [exact H1|]. split; [exact H2|].
  exact (isRobotsTxtCompliant_unreachable deadNetwork (newHttpClient noOptions)
           "https://devpost.com" ["/hackathons"] idleNet H1 H2).
Defined.


(* ------------------------------------------------------------------ *)
(** ** Further properties of the robots.txt evaluation *)
(* ------------------------------------------------------------------ *)

Lemma splitLines_nonempty s : Js.splitLines s ≠ [].
Proof.
  destruct s as [|c s]; [done|]. cbn [Js.splitLines].
  destruct (Ascii.eqb c "010"); [done|]. by destruct (Js.splitLines s).
Qed.

Lemma splitLines_app a b :
  Js.splitLines (a +:+ nl +:+ b) = Js.splitLines a ++ Js.splitLines b.
Proof.
  induction a as [|c a IH]; [done|].
  change (String c a +:+ nl +:+ b) with (String c (a +:+ nl +:+ b)).
  cbn [Js.splitLines]. rewrite IH. destruct (Ascii.eqb c "010"); [done|].
  pose proof (splitLines_nonempty a). by destruct (Js.splitLines a).
Qed.

Lemma robotsLine_user_agent userAgent st st' line :
  Js.startsWith line "user-agent:" = true ->
  robotsLine userAgent st line = robotsLine userAgent st' line.
Proof. intros H. unfold robotsLine. by rewrite H. Qed.

Lemma robotsLine_not_relevant userAgent st line :
  opensRelevantBlock userAgent line = false ->
  isRelevantSection st = false -> disallowed st = [] -> allowed st = [] ->
  let st' := robotsLine userAgent st line in
  isRelevantSection st' = false ∧ disallowed st' = [] ∧ allowed st' = [].
Proof.
  unfold opensRelevantBlock, robotsLine. intros Hline Hrel Hdis Hall.
  destruct (Js.startsWith line "user-agent:"); cbn [andb] in Hline.
  - cbn [isRelevantSection disallowed allowed]. by rewrite Hline.
  - rewrite Hrel. done.
Qed.

Lemma robots_fold_not_relevant userAgent lines st :
  (∀ line, line ∈ lines -> opensRelevantBlock userAgent line = false) ->
  isRelevantSection st = false -> disallowed st = [] -> allowed st = [] ->
  let st' := foldl (robotsLine userAgent) st lines in
  disallowed st' = [] ∧ allowed st' = [].
Proof.
  revert st. induction lines as [|line lines IH]; intros st Hlines Hrel Hdis Hall; [done|].
  cbn [foldl].
  destruct (robotsLine_not_relevant userAgent st line) as (H1 & H2 & H3);
    [apply Hlines; constructor|done..|].
  apply IH; [|done..]. intros l Hl. apply Hlines. by constructor.
Qed.

(** X19. The evaluation of robots.txt forgets everything that precedes a
    [User-agent] line: a file in which the text [rest], whose first line is a
    [User-agent] line, follows any text [before] is evaluated as [rest]
    alone. *)
Theorem isAllowedByRobotsTxt_forgets_earlier_blocks (before rest userAgent path : string) :
  Js.startsWith (Js.toLowerCase (Js.trim (firstLine rest))) "user-agent:" = true ->
  isAllowedByRobotsTxt (Some (before +:+ nl +:+ rest)) userAgent path
  = isAllowedByRobotsTxt (Some rest) userAgent path.
Proof.
  intros Hfirst. unfold isAllowedByRobotsTxt.
  assert (Js.truthy (Some (before +:+ nl +:+ rest)) = true) as -> by (by destruct before).
  assert (Js.truthy (Some rest) = true) as ->.
  { destruct rest; [discriminate Hfirst|done]. }
  cbn [negb]. rewrite splitLines_app, fmap_app, foldl_app.
  unfold firstLine in Hfirst. pose proof (splitLines_nonempty rest) as Hne.
  destruct (Js.splitLines rest) as [|l ls]; [done|].
  cbn [head default] in Hfirst. rewrite fmap_cons. cbn [foldl].
  by rewrite (robotsLine_user_agent userAgent _
                {| currentUserAgent := ""; isRelevantSection := false;
                   disallowed := []; allowed := [] |} _ Hfirst).
Qed.

Lemma isAllowedByRobotsTxt_forgets_earlier_blocks_witness :
  let before := "User-agent: *" +:+ nl +:+ "Disallow: /hackathons" in
  let rest := "User-agent: Googlebot" +:+ nl +:+ "Disallow: /private" in
  Js.startsWith (Js.toLowerCase (Js.trim (firstLine rest))) "user-agent:" = true
  ∧ isAllowedByRobotsTxt (Some (before +:+ nl +:+ rest)) "HackathonSnifferBot" "/hackathons"
    = isAllowedByRobotsTxt (Some rest) "HackathonSnifferBot" "/hackathons".
Proof.
  intros before rest.
  assert (Js.startsWith (Js.toLowerCase (Js.trim (firstLine rest))) "user-agent:" = true)
    as H by reflexivity.
  split; [exact H|].
  exact (isAllowedByRobotsTxt_forgets_earlier_blocks before rest "HackathonSnifferBot"
           "/hackathons" H).
Defined.

(** X20. Rules bind only in a block opened for the crawler: when no line of
    robots.txt opens a block for [*] or for a name contained in the crawler's
    name, every path is allowed, whatever [Disallow] lines the file has. *)
Theorem isAllowedByRobotsTxt_no_relevant_block (content userAgent path : string) :
  (∀ line, line ∈ Js.splitLines content ->
           opensRelevantBlock userAgent (Js.toLowerCase (Js.trim line)) = false) ->
  isAllowedByRobotsTxt (Some content) userAgent path = true.
Proof.
  intros Hlines. unfold isAllowedByRobotsTxt.
  destruct (negb (Js.truthy (Some content))); [done|].
  destruct (robots_fold_not_relevant userAgent
              ((λ line, Js.toLowerCase (Js.trim line)) <$> Js.splitLines content)
              {| currentUserAgent := ""; isRelevantSection := false;
                 disallowed := []; allowed := [] |}) as [-> ->]; [|done..].
  intros line (l & -> & Hl)%list_elem_of_fmap. by apply Hlines.
Qed.

Lemma isAllowedByRobotsTxt_no_relevant_block_witness :
  let content := "User-agent: Googlebot" +:+ nl +:+ "Disallow: /" in
  (∀ line, line ∈ Js.splitLines content ->
           opensRelevantBlock "HackathonSnifferBot" (Js.toLowerCase (Js.trim line)) = false)
  ∧ isAllowedByRobotsTxt (Some content) "HackathonSnifferBot" "/hackathons" = true.
Proof.
  intros content.
  assert (∀ line, line ∈ Js.splitLines content ->
            opensRelevantBlock "HackathonSnifferBot" (Js.toLowerCase (Js.trim line)) = false)
    as H.
  { intros line Hin.
    assert (line ∈ ["User-agent: Googlebot"; "Disallow: /"]) as Hin' by exact Hin.
    apply elem_of_cons in Hin' as [->|Hin']; [reflexivity|].
    apply elem_of_cons in Hin' as [->|Hin']; [reflexivity|].
    by apply elem_of_nil in Hin'. }
  split; [exact H|].
  exact (isAllowedByRobotsTxt_no_relevant_block content "HackathonSnifferBot"
           "/hackathons" H).
Defined.


(* ------------------------------------------------------------------ *)
(** ** Further properties of the scheduler *)
(* ------------------------------------------------------------------ *)

(** X21. The run state recovers: when the run in flight settles, [isRunning]
    is cleared and no run is left in flight, so the next timer tick or
    [runIngestion] call starts a run, numbered after all earlier ones. *)
Theorem scheduler_recovers_after_settle (evs : list SchedulerEvent) (r : nat) :
  r ∈ inFlight (after evs) ->
  let this := (step (after evs) (RunSettles r)).1 in
  isRunning this = false ∧ inFlight this = []
  ∧ (step this CronTick).2 = RunStarted (started (after evs))
  ∧ (step this RunIngestionCall).2 = RunStarted (started (after evs)).
Proof.
  intros Hr. pose proof (inv_single _ (after_inv evs)) as Hsingle.
  cbn [step]. rewrite bool_decide_eq_true_2 by done.
  destruct (inFlight (after evs)) as [|r' [|r'' l]] eqn:Hfl; cbn in Hsingle; [|..|lia].
  { by apply elem_of_nil in Hr. }
  apply list_elem_of_singleton in Hr as ->.
  cbn [fst isRunning inFlight started]. rewrite filter_cons_False, filter_nil by naive_solver.
  unfold cronCallback, runIngestion, beginRun. cbn [isRunning started snd]. done.
Qed.

Lemma scheduler_recovers_after_settle_witness :
  0 ∈ inFlight (after [CronTick])
  ∧ (step (step (after [CronTick]) (RunSettles 0)).1 CronTick).2 = RunStarted 1.
Proof.
  assert (0 ∈ inFlight (after [CronTick])) as H by (cbn; constructor).
  split; [exact H|].
  destruct (scheduler_recovers_after_settle [CronTick] 0 H) as (_ & _ & H3 & _).
  exact H3.
Defined.

(* ------------------------------------------------------------------ *)
(** ** One adapter's ingestion: the counters *)
(* ------------------------------------------------------------------ *)

Lemma prefix_append p s : String.prefix p (p +:+ s) = true.
Proof.
  induction p as [|c p IH]; [by destruct s|].
  change (String c p +:+ s) with (String c (p +:+ s)). cbn [String.prefix].
  destruct (ascii_dec c c); [exact IH|done].
Qed.

Section Counters.

Context {Store : Type}.
Variable processEvent :
  NormalizedHackathon -> ScrapingResult -> Store -> Completion string (ScrapingResult * Store).
Hypothesis HprocessEvent : countsOnly processEvent.

Lemma processOne_fold (scrapedEvents : list NormalizedHackathon)
    (acc : ScrapingResult * Store) :
  let acc' := foldl (processOne Store processEvent) acc scrapedEvents in
  r_source_id acc'.1 = r_source_id acc.1
  ∧ events_found acc'.1 = events_found acc.1
  ∧ events_processed acc'.1 + length (errors acc'.1)
    = events_processed acc.1 + length (errors acc.1) + length scrapedEvents
  ∧ (Forall (λ e, Js.startsWith e "Event processing error: " = true) (errors acc.1) ->
     Forall (λ e, Js.startsWith e "Event processing error: " = true) (errors acc'.1)).
Proof.
  revert acc. induction scrapedEvents as [|event rest IH]; intros [result store].
  - cbn. repeat split; [lia|done].
  - cbn [foldl].
    destruct (IH (processOne Store processEvent (result, store) event))
      as (H1 & H2 & H3 & H4).
    cbv zeta. rewrite H1, H2, H3. clear H1 H2 H3.
    unfold processOne in *.
    destruct (processEvent event result store) as [[result' store']|errorMessage] eqn:Hp.
    + destruct (HprocessEvent _ _ _ _ _ Hp) as (Hs & Hf & Hn & He).
      cbn [fst r_source_id events_found events_processed errors length] in *.
      rewrite Hs, Hf, Hn, He in *. repeat split; [lia|done].
    + cbn [fst r_source_id events_found events_processed errors length] in *.
      rewrite length_app. cbn [length]. repeat split; [lia|].
      intros Hall. apply H4, Forall_app. split; [done|].
      constructor; [|done]. apply prefix_append.
Qed.

End Counters.



(* ------------------------------------------------------------------ *)
(** ** Location texts *)
(* ------------------------------------------------------------------ *)

Lemma trimEnd_empty s :
  Js.trimEnd s = "" -> Forall (λ c, Js.isWhiteSpace c = true) (Js.chars s).
Proof.
  induction s as [|c s IH]; [constructor|]. cbn [Js.trimEnd Js.chars list_ascii_of_string].
  destruct (Js.trimEnd s) as [|c' t]; [|done].
  destruct (Js.isWhiteSpace c) eqn:Hc; [|done]. intros _. constructor; [done|by apply IH].
Qed.

Lemma trimStart_blank s :
  Forall (λ c, Js.isWhiteSpace c = true) (Js.chars (Js.trimStart s)) ->
  Forall (λ c, Js.isWhiteSpace c = true) (Js.chars s).
Proof.
  induction s as [|c s IH]; [done|]. cbn [Js.trimStart].
  destruct (Js.isWhiteSpace c) eqn:Hc; [|done].
  intros H. constructor; [done|by apply IH].
Qed.

Lemma trim_empty s :
  Js.trim s = "" -> Forall (λ c, Js.isWhiteSpace c = true) (Js.chars s).
Proof. intros H. by apply trimStart_blank, trimEnd_empty. Qed.

Lemma lowerChar_whiteSpace c : Js.isWhiteSpace c = true -> Js.lowerChar c = c.
Proof. destruct c as [[] [] [] [] [] [] [] []]; vm_compute; done. Qed.

Lemma includes_head t k ks :
  Js.includes t (String k ks) = true -> k ∈ Js.chars t.
Proof.
  induction t as [|c t IH]; cbn [Js.includes String.prefix]; [done|].
  cbn [Js.chars list_ascii_of_string].
  destruct (ascii_dec k c) as [->|Hkc].
  - intros _. constructor.
  - intros H. constructor. by apply IH.
Qed.

Lemma chars_toLowerCase s : Js.chars (Js.toLowerCase s) = Js.lowerChar <$> Js.chars s.
Proof.
  induction s as [|c s IH]; [done|].
  cbn [Js.toLowerCase Js.chars list_ascii_of_string]. rewrite fmap_cons. f_equal. exact IH.
Qed.

Lemma blank_includes s k ks :
  Forall (λ c, Js.isWhiteSpace c = true) (Js.chars s) ->
  Js.isWhiteSpace k = false ->
  Js.includes (Js.toLowerCase s) (String k ks) = false.
Proof.
  intros Hblank Hk. apply not_true_is_false. intros Hin%includes_head.
  rewrite chars_toLowerCase in Hin. apply list_elem_of_fmap in Hin as (c & -> & Hc).
  rewrite Forall_forall in Hblank. specialize (Hblank c Hc).
  rewrite lowerChar_whiteSpace in Hk by done. congruence.
Qed.

(** X23. [parseLocation] never returns an empty location: a text with
    something other than white space is returned trimmed, and a blank text
    gives the location "Location TBD" with the online flag off; the fallback
    "Online" for a blank text is never produced, because a blank text
    contains no keyword. *)
Theorem parseLocation_never_empty (locationText : string) :
  let result := DevpostAdapter.parseLocation locationText in
  result.1 ≠ ""
  ∧ (Js.trim locationText ≠ "" -> result.1 = Js.trim locationText)
  ∧ (Js.trim locationText = "" -> result = ("Location TBD", false)).
Proof.
  unfold DevpostAdapter.parseLocation. cbn [Js.truthy fst].
  destruct (String.eqb_spec (Js.trim locationText) "") as [Hblank|Hsome]; cbn [negb].
  - pose proof (trim_empty _ Hblank) as Hws.
    unfold DevpostAdapter.onlineKeywords. cbn [existsb].
    rewrite !blank_includes by done. cbn. done.
  - done.
Qed.

(** X24. The MLH adapter flags as online every location text that the
    Devpost adapter flags, and besides those the texts that contain
    "worldwide" or "global". *)
Theorem isOnlineEvent_extends_parseLocation (locationText : string) :
  MLHAdapter.isOnlineEvent locationText
  = (DevpostAdapter.parseLocation locationText).2
    || Js.includes (Js.toLowerCase locationText) "worldwide"
    || Js.includes (Js.toLowerCase locationText) "global".
Proof.
  unfold MLHAdapter.isOnlineEvent, DevpostAdapter.parseLocation,
    MLHAdapter.onlineKeywords, DevpostAdapter.onlineKeywords.
  cbn [existsb snd]. rewrite !orb_false_r, <- !orb_assoc. done.
Qed.


(* ------------------------------------------------------------------ *)
(** ** Further properties of the merge and of the duplicate test *)
(* ------------------------------------------------------------------ *)

Lemma truthy_lengthOr0 o : Js.truthy o = true ↔ 0 < Js.lengthOr0 o.
Proof.
  destruct o as [[|c s]|]; cbn; split; try done; try lia.
Qed.

Lemma find_truthy_kept (group : list NormalizedHackathon)
    (field : NormalizedHackathon -> option string) :
  match List.find (λ e, Js.truthy (field e)) group with
  | Some e => e ∈ group ∧ Js.truthy (field e) = true
  | None => ∀ e, e ∈ group -> Js.truthy (field e) = false
  end.
Proof.
  destruct (List.find _ group) as [e|] eqn:Hf.
  - apply find_some in Hf as [Hin Ht]. by rewrite list_elem_of_In.
  - intros e He%list_elem_of_In. by apply (find_none _ _ Hf).
Qed.

(** X25. The merge loses no optional field: the merged record has a
    description, a registration URL or a website URL exactly when some record
    of the group has one, and the value is then that of a record of the
    group. *)
Theorem mergeDuplicates_keeps_optional_fields (original : NormalizedHackathon)
    (duplicates : list NormalizedHackathon) :
  let merged := mergeDuplicates original duplicates in
  let group := original :: duplicates in
  keptFrom group description merged
  ∧ keptFrom group registration_url merged
  ∧ keptFrom group website_url merged.
Proof.
  intros merged group. subst merged.
  destruct (mergeDuplicates_base original duplicates) as [Hbest _].
  unfold mergeDuplicates, keptFrom.
  set (best := foldl pickBest original duplicates) in *.
  cbn [description registration_url website_url]. fold group in Hbest |- *.
  split; [|split].
  - destruct (List.find _ group) as [e|] eqn:Hf; cbn [mbind option_bind].
    + apply find_some in Hf as [Hin [Ht Hlen]%andb_prop]. apply list_elem_of_In in Hin.
      unfold Js.or_else. rewrite Ht. split; [|by eauto]. split; [by eauto|done].
    + unfold Js.or_else. cbn [Js.truthy]. split; [|by eauto]. split; [by eauto|].
      intros (e & He & Ht).
      destruct (Js.truthy (description best)) eqn:Hb; [done|]. exfalso.
      apply list_elem_of_In in He. pose proof (find_none _ _ Hf e He) as Hnone.
      cbn beta in Hnone. rewrite Ht in Hnone. cbn [andb] in Hnone.
      apply truthy_lengthOr0 in Ht.
      assert (Js.lengthOr0 (description best) = 0) as Hzero.
      { destruct (Js.lengthOr0 (description best)) eqn:E; [done|].
        assert (Js.truthy (description best) = true) by (apply truthy_lengthOr0; lia).
        congruence. }
      rewrite Hzero in Hnone. apply Nat.ltb_ge in Hnone. lia.
  - pose proof (find_truthy_kept group registration_url) as Hfind.
    destruct (List.find _ group) as [e|]; cbn [mbind option_bind].
    + destruct Hfind as [Hin Ht]. unfold Js.or_else. rewrite Ht.
      split; [|by eauto]. split; [by eauto|done].
    + unfold Js.or_else. cbn [Js.truthy]. rewrite (Hfind best Hbest).
      split; [|done]. split; [done|]. intros (e & He & Ht).
      rewrite (Hfind e He) in Ht. done.
  - unfold Js.or_else. destruct (Js.truthy (website_url best)) eqn:Hb.
    + rewrite Hb. split; [|by eauto]. split; [by eauto|done].
    + pose proof (find_truthy_kept group website_url) as Hfind.
      destruct (List.find _ group) as [e|]; cbn [mbind option_bind].
      * destruct Hfind as [Hin Ht]. rewrite Ht. split; [|by eauto]. split; [by eauto|done].
      * cbn [Js.truthy]. split; [|done]. split; [done|]. intros (e & He & Ht).
        rewrite (Hfind e He) in Ht. done.
Qed.

(** X26. At the default threshold two records are duplicates only if their
    start dates are equal or at most three days apart and their titles have
    similarity at least 5/8: the other components cannot make up for a
    missing start-date credit or for a title that differs more. *)
Theorem isDuplicate_needs_close_dates (getTime : string -> option Z)
    (a b : NormalizedHackathon) :
  isDuplicate getTime a b None = true ->
  (start_date a = start_date b
   ∨ withinThreeDays getTime (start_date a) (start_date b) = true)
  ∧ (5 # 8 <= stringSimilarity (title a) (title b))%Q.
Proof.
  unfold isDuplicate. cbn [default]. intros Hdup%Qle_bool_iff.
  rewrite calculateSimilarity_sum in Hdup.
  pose proof (stringSimilarity_bounds (title a) (title b)) as [Ht0 Ht1].
  pose proof (stringSimilarity_bounds (location a) (location b)) as [Hl0 Hl1].
  assert (0 <= onlineCredit a b <= 1 # 10)%Q as [Ho0 Ho1].
  { unfold onlineCredit. case_match; split; discriminate. }
  assert (0 <= startDateCredit getTime a b <= 3 # 10)%Q as [Hd0 Hd1].
  { unfold startDateCredit. repeat case_match; split; discriminate. }
  split; [|lra].
  unfold startDateCredit in Hdup.
  destruct (decide (start_date a = start_date b)); [by left|].
  destruct (withinThreeDays getTime (start_date a) (start_date b)); [by right|].
  exfalso. lra.
Qed.

Lemma isDuplicate_needs_close_dates_witness :
  isDuplicate (Date.parse 0) mergeEx_original mergeEx_second None = true
  ∧ (5 # 8 <= stringSimilarity (title mergeEx_original) (title mergeEx_second))%Q.
Proof.
  assert (isDuplicate (Date.parse 0) mergeEx_original mergeEx_second None = true) as H
    by (vm_compute; reflexivity).
  split; [exact H|].
  destruct (isDuplicate_needs_close_dates (Date.parse 0) mergeEx_original mergeEx_second H)
    as [_ H2].
  exact H2.
Defined.
